(** * colcon-ros: identification of ROS packages

    A shallow embedding of [colcon_ros/package_identification/ros.py]:
    the module-level manifest cache, the loader [_get_package], the
    classifier [_get_build_type], [RosPackageIdentification.identify] and
    [RosPackageIdentification.augment_packages], followed by the
    properties the specification states about them.

    Python objects are mutated in place and exceptions leave earlier
    mutations behind, so the functions live in a state-and-exception monad
    whose state survives a raise. *)

From stdpp Require Import gmap strings list fin_maps.

Open Scope string_scope.

(** ** Exceptions and the monad *)

Inductive Exception :=
  | IgnoreLocationException
  | AssertionError
  | InvalidPackage
  | KeyError (key : string).

#[global] Instance Exception_eq_dec : EqDecision Exception.
Proof. solve_decision. Defined.

Inductive Outcome (A : Type) :=
  | Returned (a : A)
  | Raised (e : Exception).
Arguments Returned {A} a.
Arguments Raised {A} e.

(** A computation over a mutable state [S]: the state after a raise is the
    state at the point of the raise. *)
Definition Py (S A : Type) : Type := S → Outcome A * S.

Definition py_ret {S A} (a : A) : Py S A := λ s, (Returned a, s).

Definition py_bind {S A B} (m : Py S A) (k : A → Py S B) : Py S B :=
  λ s, match m s with
       | (Returned a, s') => k a s'
       | (Raised e, s') => (Raised e, s')
       end.

Definition raise {S A} (e : Exception) : Py S A := λ s, (Raised e, s).
(** The outcome of a call that does not touch the state. *)
Definition lift {S A} (o : Outcome A) : Py S A := λ s, (o, s).
Definition get {S} : Py S S := λ s, (Returned s, s).
Definition modify {S} (f : S → S) : Py S unit := λ s, (Returned tt, f s).

Declare Scope py_scope.
Delimit Scope py_scope with py.

Notation "x ← m ; k" := (py_bind m (λ x, k))
  (at level 20, m at level 100, k at level 200, only parsing) : py_scope.
Notation "' x ← m ; k" := (py_bind m (λ x, k))
  (at level 20, x pattern, m at level 100, k at level 200, only parsing) : py_scope.
Notation "m ;; k" := (py_bind m (λ _, k))
  (at level 100, k at level 200, right associativity, only parsing) : py_scope.
Bind Scope py_scope with Py.

(** [for x in l: body(x)] *)
Fixpoint for_each {S A} (l : list A) (body : A → Py S unit) : Py S unit :=
  match l with
  | [] => py_ret tt
  | x :: l' => (body x ;; for_each l' body)%py
  end.

(** Run a computation over one component of a larger state. *)
Definition on_snd {S1 S2 A} (m : Py S2 A) : Py (S1 * S2) A :=
  λ s, let '(o, s2) := m s.2 in (o, (s.1, s2)).

(** ** The parsed manifest (catkin_pkg's objects, by their accessor contract) *)

Record Dependency := {
  dep_name : string;
  dep_evaluated_condition : option bool;
  version_lte : option string;
  version_lt : option string;
  version_gte : option string;
  version_gt : option string;
  version_eq : option string;
}.

(** A group dependency or a group membership: a group name and its
    condition. *)
Record GroupRef := {
  group_name : string;
  group_evaluated_condition : option bool;
}.

(** What the manifest's build-type exports amount to. *)
Inductive BuildTypeDecl :=
  | SingleBuildType (bt : string)
  | SeveralBuildTypes.

Record Package := {
  name : string;
  version : string;
  build_depends : list Dependency;
  buildtool_depends : list Dependency;
  build_export_depends : list Dependency;
  buildtool_export_depends : list Dependency;
  exec_depends : list Dependency;
  test_depends : list Dependency;
  group_depends : list GroupRef;
  member_of_groups : list GroupRef;
  build_type_decl : BuildTypeDecl;
}.

(** [pkg.get_build_type()]: the declared build type, or [InvalidPackage]
    when more than one is declared. *)
Definition get_build_type (pkg : Package) : Outcome string :=
  match build_type_decl pkg with
  | SingleBuildType bt => Returned bt
  | SeveralBuildTypes => Raised InvalidPackage
  end.

(** ** Descriptors *)

(** The metadata mapping of a [DependencyDescriptor]. *)
Abbreviation Metadata := (gmap string string).

(** [DependencyDescriptor] is a [str] subclass: it hashes and compares as
    its name, the metadata takes no part. *)
Record DependencyDescriptor := {
  dd_name : string;
  dd_metadata : Metadata;
}.

(** A Python [set] of [DependencyDescriptor]s, as the map from the name of
    each element to the metadata of the element that is stored. *)
Abbreviation DepSet := (gmap string Metadata).

(** [s.add(dd)]: an element equal to one already stored is not stored
    again, the stored one stays. *)
Definition set_add (dd : DependencyDescriptor) (s : DepSet) : DepSet :=
  match s !! dd_name dd with
  | Some _ => s
  | None => <[dd_name dd := dd_metadata dd]> s
  end.

Inductive Category := Build | Run | Test.

#[global] Instance Category_eq_dec : EqDecision Category.
Proof. solve_decision. Defined.

Record Dependencies := {
  deps_build : DepSet;
  deps_run : DepSet;
  deps_test : DepSet;
}.

Definition deps_get (c : Category) (ds : Dependencies) : DepSet :=
  match c with
  | Build => deps_build ds
  | Run => deps_run ds
  | Test => deps_test ds
  end.

Definition deps_add (c : Category) (dd : DependencyDescriptor)
    (ds : Dependencies) : Dependencies :=
  match c with
  | Build => {| deps_build := set_add dd (deps_build ds);
                deps_run := deps_run ds; deps_test := deps_test ds |}
  | Run => {| deps_build := deps_build ds;
              deps_run := set_add dd (deps_run ds); deps_test := deps_test ds |}
  | Test => {| deps_build := deps_build ds; deps_run := deps_run ds;
               deps_test := set_add dd (deps_test ds) |}
  end.

(** The values [identify] stores in [desc.metadata]: the version string
    and the accessor closed over the path of the [setup.py] file. *)
Inductive MetaValue :=
  | MetaString (s : string)
  | MetaSetupOptionsGetter (setup_py : string).

Record PackageDescriptor := {
  desc_path : string;
  desc_type : option string;
  desc_name : option string;
  desc_dependencies : Dependencies;
  desc_metadata : gmap string MetaValue;
}.

Definition set_type (t : string) (d : PackageDescriptor) : PackageDescriptor :=
  {| desc_path := desc_path d; desc_type := Some t; desc_name := desc_name d;
     desc_dependencies := desc_dependencies d; desc_metadata := desc_metadata d |}.

Definition set_name (n : string) (d : PackageDescriptor) : PackageDescriptor :=
  {| desc_path := desc_path d; desc_type := desc_type d; desc_name := Some n;
     desc_dependencies := desc_dependencies d; desc_metadata := desc_metadata d |}.

Definition set_metadata (k : string) (v : MetaValue) (d : PackageDescriptor)
    : PackageDescriptor :=
  {| desc_path := desc_path d; desc_type := desc_type d; desc_name := desc_name d;
     desc_dependencies := desc_dependencies d;
     desc_metadata := <[k := v]> (desc_metadata d) |}.

Definition add_dependency (c : Category) (dd : DependencyDescriptor)
    (d : PackageDescriptor) : PackageDescriptor :=
  {| desc_path := desc_path d; desc_type := desc_type d; desc_name := desc_name d;
     desc_dependencies := deps_add c dd (desc_dependencies d);
     desc_metadata := desc_metadata d |}.

(** [path / name] *)
Definition path_join (path name : string) : string := path ++ "/" ++ name.

(** ** The world outside: file system and manifest parser *)

Inductive ParseFailure := ParseInvalidPackage | ParseAssertionError.

Inductive ParseResult :=
  | Parsed (pkg : Package)
  | ParseFails (f : ParseFailure).

Record World := {
  path_exists : string → bool;
  path_is_file : string → bool;
  package_exists_at : string → bool;
  parse_package : string → ParseResult;
  (** [pkg.evaluate_conditions(os.environ)] *)
  evaluate_conditions : Package → Package;
}.

(** ** Module state *)

(** Calls and log records, in the order they happen. *)
Inductive Event :=
  | LoaderCall (path : string)
  | ClassifierCall (pkg_name : string)
  | LoggedError (message : string).

#[global] Instance Event_eq_dec : EqDecision Event.
Proof. solve_decision. Defined.

Record Globals := {
  _cached_packages : gmap string (option Package * option string);
  events : list Event;
}.

Definition emit (e : Event) : Py Globals unit :=
  modify (λ g, {| _cached_packages := _cached_packages g;
                  events := events g ++ [e] |}).

Definition cache_store (path : string) (v : option Package * option string)
    : Py Globals unit :=
  modify (λ g, {| _cached_packages := <[path := v]> (_cached_packages g);
                  events := events g |}).

Section Identification.

Variable w : World.

(** [_get_package(path)].  The function handles the two failures of the
    parser that the world's [parse_package] can answer with, and
    [evaluate_conditions] is a function of the package: an exception of
    another kind, which the Python would let through to the caller, does
    not occur in a [World]. *)
Definition _get_package (path : string) : Py Globals (option Package) :=
  (emit (LoaderCall path) ;;
   if negb (package_exists_at w path) then py_ret None
   else match parse_package w path with
        | ParseFails ParseAssertionError => py_ret None
        | ParseFails ParseInvalidPackage => py_ret None
        | Parsed pkg => py_ret (Some (evaluate_conditions w pkg))
        end)%py.

(** [_get_build_type(pkg)].  The handler formats its warning with
    [format_map(locals())]; the text names [{path}], and the locals of
    this function are [pkg] and [InvalidPackage] only, so the formatting
    raises [KeyError('path')] before the warning is logged and before
    [None] is returned. *)
Definition _get_build_type (pkg : Package) : Py Globals (option string) :=
  (emit (ClassifierCall (name pkg)) ;;
   match get_build_type pkg with
   | Returned bt => py_ret (Some bt)
   | Raised InvalidPackage => raise (KeyError "path")
   | Raised e => raise e
   end)%py.

(** [get_package_with_build_type(path)] *)
Definition get_package_with_build_type (path : string)
    : Py Globals (option Package * option string) :=
  (g ← get;
   match _cached_packages g !! path with
   | None =>
       pkg ← _get_package path;
       build_type ← match pkg with
                    | Some p => _get_build_type p
                    | None => py_ret None
                    end;
       cache_store path (pkg, build_type)
   | Some _ => py_ret tt
   end ;;
   g ← get;
   match _cached_packages g !! path with
   | Some v => py_ret v
   | None => raise (KeyError path)
   end)%py.

(** [_create_metadata(dependency)] *)
Definition _create_metadata (dependency : Dependency) : Metadata :=
  let attributes :=
    [("version_lte", version_lte); ("version_lt", version_lt);
     ("version_gte", version_gte); ("version_gt", version_gt);
     ("version_eq", version_eq)] in
  foldl (λ metadata '(attr, getattr),
           match getattr dependency with
           | Some v => <[attr := v]> metadata
           | None => metadata
           end) ∅ attributes.

Definition IdState : Type := PackageDescriptor * Globals.

Definition update_desc (f : PackageDescriptor → PackageDescriptor)
    : Py IdState unit :=
  modify (λ s, (f s.1, s.2)).

(** One of the three dependency loops of [identify]. *)
Definition add_depends (c : Category) (l : list Dependency) : Py IdState unit :=
  for_each l (λ d,
    match dep_evaluated_condition d with
    | None => raise AssertionError
    | Some true =>
        update_desc (add_dependency c
          {| dd_name := dep_name d; dd_metadata := _create_metadata d |})
    | Some false => py_ret tt
    end).

Definition no_setup_py_message (path build_type : string) : string :=
  "ROS package '" ++ path ++ "' with build type '" ++ build_type
    ++ "' has no 'setup.py' file".

(** The test [not pkg or not build_type], read the other way round: the
    package and the build type when both are true.  A package object is
    always true; a build type is true unless it is [None] or empty. *)
Definition wet_package (pkg : option Package) (build_type : option string)
    : option (Package * string) :=
  match pkg, build_type with
  | Some p, Some bt => if String.eqb bt "" then None else Some (p, bt)
  | _, _ => None
  end.

(** The part of [identify] that runs once a package and its build type are
    at hand: from the [setup.py] check to the end. *)
Definition populate (pkg : Package) (build_type : string) : Py IdState unit :=
  (s ← get;
   let desc := s.1 in
   (if String.eqb build_type "ament_python"
    then
      if negb (path_is_file w (path_join (desc_path desc) "setup.py"))
      then
        on_snd (emit (LoggedError
                        (no_setup_py_message (desc_path desc) build_type))) ;;
        raise IgnoreLocationException
      else py_ret tt
    else py_ret tt) ;;
   update_desc (set_type ("ros." ++ build_type)) ;;
   (s ← get;
    match desc_name s.1 with
    | None => update_desc (set_name (name pkg))
    | Some _ => py_ret tt
    end) ;;
   update_desc (set_metadata "version" (MetaString (version pkg))) ;;
   add_depends Build (build_depends pkg ++ buildtool_depends pkg) ;;
   add_depends Run (build_export_depends pkg
                      ++ buildtool_export_depends pkg
                      ++ exec_depends pkg) ;;
   add_depends Test (test_depends pkg) ;;
   if String.eqb build_type "ament_python"
   then update_desc
          (set_metadata "get_python_setup_options"
             (MetaSetupOptionsGetter (path_join (desc_path desc) "setup.py")))
   else py_ret tt)%py.

(** [RosPackageIdentification.identify(desc)]; the state is the descriptor
    object and the module globals. *)
Definition identify : Py IdState unit :=
  (s ← get;
   let desc := s.1 in
   if bool_decide (desc_type desc ≠ None ∧ desc_type desc ≠ Some "ros")
   then py_ret tt
   else if path_exists w (path_join (desc_path desc) "CATKIN_IGNORE")
   then raise IgnoreLocationException
   else if path_exists w (path_join (desc_path desc) "AMENT_IGNORE")
   then raise IgnoreLocationException
   else
     '(pkg, build_type) ← on_snd (get_package_with_build_type (desc_path desc));
     match wet_package pkg build_type with
     | None =>
         if path_exists w (path_join (desc_path desc) "manifest.xml")
         then raise IgnoreLocationException
         else py_ret tt
     | Some (pkg, build_type) => populate pkg build_type
     end)%py.

End Identification.

(** ** Group dependencies *)

(** Whether [pkg] declares, under a true condition, that it belongs to the
    group [group]. *)
Definition is_member_of (group : string) (pkg : Package) : bool :=
  existsb (λ g, String.eqb (group_name g) group
                && bool_decide (group_evaluated_condition g = Some true))
          (member_of_groups pkg).

(** The names of the packages that belong to the group of [group_depend]. *)
Definition member_names (group_depend : GroupRef)
    (packages : list Package) : list string :=
  name <$> filter (λ pkg, is_member_of (group_name group_depend) pkg = true) packages.

(** Whether every membership condition of the packages is evaluated. *)
Definition memberships_evaluated (packages : list Package) : bool :=
  forallb (λ pkg,
             forallb (λ g, bool_decide (group_evaluated_condition g ≠ None))
                     (member_of_groups pkg))
          packages.

(** Modelled from the spec: catkin_pkg's
    [GroupDependency.extract_group_members(packages)], which is not part of
    this repository.  The members are the names of whichever of the given
    packages match the group's name: those that declare, under a true
    condition, that they belong to a group of that name.  A membership
    condition that is [None] is the invariant violation the specification
    speaks of: the method asserts, package by package, that every
    membership condition is evaluated, and raises [AssertionError] where
    one is not.  The method stores the members in [group_depend.members],
    which the caller reads at once and nowhere else, so the model hands the
    names over directly.  In Python they form a set; what the caller does
    with them depends neither on their order nor on repetitions (lemma
    [add_members_lookup]). *)
Definition extract_group_members (group_depend : GroupRef)
    (packages : list Package) : Outcome (list string) :=
  if memberships_evaluated packages
  then Returned (member_names group_depend packages)
  else Raised AssertionError.

(** The descriptors live on a heap and a batch is a list of references
    into it, so that a descriptor listed twice is one object. *)
Abbreviation Heap := (list PackageDescriptor).

(** The dictionary [pkgs].  A [Package] hashes by identity and the cache
    holds one object per path, so the key of an entry is the path its
    package is cached under; the entries are in insertion order. *)
Abbreviation PkgsDict := (list (string * (Package * nat))).

(** Iterating [pkgs] yields its keys, the packages. *)
Definition packages_of (pkgs : PkgsDict) : list Package := (λ e, e.2.1) <$> pkgs.

(** [pkgs[pkg] = desc]: a key already present keeps its place and gets
    the new value. *)
Definition dict_set (key : string) (v : Package * nat) (pkgs : PkgsDict)
    : PkgsDict :=
  if existsb (λ e, String.eqb e.1 key) pkgs
  then (λ e, if String.eqb e.1 key then (key, v) else e) <$> pkgs
  else pkgs ++ [(key, v)].

(** The first loop of [augment_packages]. *)
Fixpoint collect_pkgs (g : Globals) (heap : Heap) (descs : list nat)
    (pkgs : PkgsDict) : PkgsDict :=
  match descs with
  | [] => pkgs
  | r :: descs' =>
      match heap !! r with
      | None => collect_pkgs g heap descs' pkgs
      | Some desc =>
          match _cached_packages g !! desc_path desc with
          | None => collect_pkgs g heap descs' pkgs
          | Some (None, _) => collect_pkgs g heap descs' pkgs
          | Some (Some pkg, _) =>
              collect_pkgs g heap descs' (dict_set (desc_path desc) (pkg, r) pkgs)
          end
      end
  end.

(** [DependencyDescriptor(name)]: no metadata. *)
Definition member_descriptor (n : string) : DependencyDescriptor :=
  {| dd_name := n; dd_metadata := ∅ |}.

(** The body of the innermost loop, for the descriptor at [r]. *)
Definition add_member (r : nat) (member : string) : Py Heap unit :=
  (modify (alter (add_dependency Build (member_descriptor member)) r) ;;
   modify (alter (add_dependency Run (member_descriptor member)) r))%py.

(** [RosPackageIdentification.augment_packages(descs)]; the state is the
    heap of descriptors, the globals are read and not written. *)
Definition augment_packages (g : Globals) (descs : list nat) : Py Heap unit :=
  (heap ← get;
   let pkgs := collect_pkgs g heap descs [] in
   for_each pkgs (λ '(_, (pkg, r)),
     for_each (group_depends pkg) (λ group_depend,
       match group_evaluated_condition group_depend with
       | None => raise AssertionError
       | Some false => py_ret tt
       | Some true =>
           members ← lift (extract_group_members group_depend (packages_of pkgs));
           for_each members (add_member r)
       end)))%py.

(** ** Notions used to state the properties *)

(** What a lookup of a path that is not cached computes. *)
Definition resolve (w : World) (path : string)
    : Outcome (option Package * option string) :=
  if package_exists_at w path then
    match parse_package w path with
    | ParseFails _ => Returned (None, None)
    | Parsed raw =>
        let pkg := evaluate_conditions w raw in
        match build_type_decl pkg with
        | SingleBuildType bt => Returned (Some pkg, Some bt)
        | SeveralBuildTypes => Raised (KeyError "path")
        end
    end
  else Returned (None, None).

(** The calls a lookup of a path that is not cached makes. *)
Definition resolve_events (w : World) (path : string) : list Event :=
  LoaderCall path ::
  (if package_exists_at w path then
     match parse_package w path with
     | ParseFails _ => []
     | Parsed raw => [ClassifierCall (name (evaluate_conditions w raw))]
     end
   else []).

Definition with_events (g : Globals) (es : list Event) : Globals :=
  {| _cached_packages := _cached_packages g; events := events g ++ es |}.

Definition with_cached (g : Globals) (path : string)
    (v : option Package * option string) : Globals :=
  {| _cached_packages := <[path := v]> (_cached_packages g); events := events g |}.

(** The cache holds what the world gives: the file system does not change
    while the process runs, and only [get_package_with_build_type] writes
    the cache. *)
Definition cache_consistent (w : World) (g : Globals) : Prop :=
  ∀ path v, _cached_packages g !! path = Some v → resolve w path = Returned v.

Definition initial_globals : Globals :=
  {| _cached_packages := ∅; events := [] |}.

Definition count_loader_calls (path : string) (es : list Event) : nat :=
  length (filter (λ e, e = LoaderCall path) es).

(** The category mapping: which manifest lists feed which dependency
    set. *)
Definition category_depends (c : Category) (pkg : Package) : list Dependency :=
  match c with
  | Build => build_depends pkg ++ buildtool_depends pkg
  | Run => build_export_depends pkg ++ buildtool_export_depends pkg
             ++ exec_depends pkg
  | Test => test_depends pkg
  end.

Definition condition_true (d : Dependency) : Prop :=
  dep_evaluated_condition d = Some true.

#[global] Instance condition_true_dec d : Decision (condition_true d).
Proof. unfold condition_true. apply _. Defined.

(** The entries of a list whose evaluated condition is true. *)
Definition true_depends (l : list Dependency) : list Dependency :=
  filter condition_true l.

(** The loader has evaluated every condition a dependency loop reads. *)
Definition conditions_evaluated (pkg : Package) : Prop :=
  Forall (λ d, dep_evaluated_condition d ≠ None)
         (category_depends Build pkg ++ category_depends Run pkg
            ++ category_depends Test pkg).

(** The first entry of [l] named [n]. *)
Definition first_named (n : string) (l : list Dependency) : option Dependency :=
  head (filter (λ d, dep_name d = n) l).

(** The version-bound attribute a metadata key stands for. *)
Definition bound_attribute (key : string) (d : Dependency) : option string :=
  if String.eqb key "version_lte" then version_lte d
  else if String.eqb key "version_lt" then version_lt d
  else if String.eqb key "version_gte" then version_gte d
  else if String.eqb key "version_gt" then version_gt d
  else if String.eqb key "version_eq" then version_eq d
  else None.

Definition descriptor_of (d : Dependency) : DependencyDescriptor :=
  {| dd_name := dep_name d; dd_metadata := _create_metadata d |}.

(** Adding the descriptors of a list of dependencies to a set, in order. *)
Definition add_all (l : list Dependency) (s : DepSet) : DepSet :=
  foldl (λ s d, set_add (descriptor_of d) s) s l.

Definition desc_deps (c : Category) (d : PackageDescriptor) : DepSet :=
  deps_get c (desc_dependencies d).

(** The descriptor after one dependency loop over [l] that meets no
    unevaluated condition. *)
Definition routed (c : Category) (l : list Dependency)
    (desc : PackageDescriptor) : PackageDescriptor :=
  foldl (λ desc d, add_dependency c (descriptor_of d) desc) desc (true_depends l).

(** The descriptor after a complete run of [populate]. *)
Definition populated (pkg : Package) (build_type : string)
    (desc : PackageDescriptor) : PackageDescriptor :=
  let d1 := set_type ("ros." ++ build_type) desc in
  let d2 := match desc_name d1 with
            | None => set_name (name pkg) d1
            | Some _ => d1
            end in
  let d3 := set_metadata "version" (MetaString (version pkg)) d2 in
  let d4 := routed Test (category_depends Test pkg)
              (routed Run (category_depends Run pkg)
                 (routed Build (category_depends Build pkg) d3)) in
  if String.eqb build_type "ament_python"
  then set_metadata "get_python_setup_options"
         (MetaSetupOptionsGetter (path_join (desc_path desc) "setup.py")) d4
  else d4.

(** What [identify] may do to a descriptor, given the package it found:
    the path stays, a name that is set stays, an unset name stays unset or
    becomes the package's, the dependency sets keep what they hold, and
    whatever is new in a set comes from a true-conditioned entry of the
    matching manifest lists and carries that entry's metadata. *)
Definition adds_from (pkg : Package) (d d' : PackageDescriptor) : Prop :=
  desc_path d' = desc_path d ∧
  (∀ n, desc_name d = Some n → desc_name d' = Some n) ∧
  (desc_name d = None →
   desc_name d' = None ∨ desc_name d' = Some (name pkg)) ∧
  (∀ c, desc_deps c d ⊆ desc_deps c d') ∧
  (∀ c n md,
     desc_deps c d !! n = None → desc_deps c d' !! n = Some md →
     ∃ dep, dep ∈ category_depends c pkg ∧ dep_name dep = n ∧
            condition_true dep ∧ md = _create_metadata dep).

Definition on_desc (R : relation PackageDescriptor) : relation IdState :=
  λ s s', R s.1 s'.1.

(** The outcome of [identify] where no package with a build type is
    found. *)
Definition no_package_outcome (w : World) (desc : PackageDescriptor)
    : Outcome unit :=
  if bool_decide (desc_type desc ≠ None ∧ desc_type desc ≠ Some "ros")
  then Returned tt
  else if path_exists w (path_join (desc_path desc) "CATKIN_IGNORE")
          || path_exists w (path_join (desc_path desc) "AMENT_IGNORE")
          || path_exists w (path_join (desc_path desc) "manifest.xml")
  then Raised IgnoreLocationException
  else Returned tt.

Definition group_condition_true (gd : GroupRef) : Prop :=
  group_evaluated_condition gd = Some true.

#[global] Instance group_condition_true_dec gd : Decision (group_condition_true gd).
Proof. unfold group_condition_true. apply _. Defined.

(** The member names [augment_packages] resolves for [pkg]: those of each
    of its true-conditioned group dependencies, in order. *)
Definition group_members (pkgs : PkgsDict) (pkg : Package) : list string :=
  concat ((λ gd, member_names gd (packages_of pkgs))
            <$> filter group_condition_true (group_depends pkg)).

(** The body of the second loop of [augment_packages], for one group
    dependency of the package whose descriptor is at [r], and the body of
    the first, for one entry of the dictionary. *)
Definition group_body (pkgs : PkgsDict) (r : nat) (group_depend : GroupRef)
    : Py Heap unit :=
  match group_evaluated_condition group_depend with
  | None => raise AssertionError
  | Some false => py_ret tt
  | Some true =>
      (members ← lift (extract_group_members group_depend (packages_of pkgs));
       for_each members (add_member r))%py
  end.

Definition entry_body (pkgs : PkgsDict) (e : string * (Package * nat))
    : Py Heap unit :=
  for_each (group_depends e.2.1) (group_body pkgs e.2.2).

(** A group dependency the second loop gets past: its condition is
    evaluated, and if it is true the members can be resolved. *)
Definition group_ok (pkgs : PkgsDict) (gd : GroupRef) : Prop :=
  group_evaluated_condition gd ≠ None ∧
  (group_condition_true gd → memberships_evaluated (packages_of pkgs) = true).

Definition entries_ok (pkgs entries : PkgsDict) : Prop :=
  Forall (λ e, Forall (group_ok pkgs) (group_depends e.2.1)) entries.

Definition add_members (names : list string) (d : PackageDescriptor)
    : PackageDescriptor :=
  foldl (λ d n, add_dependency Run (member_descriptor n)
                  (add_dependency Build (member_descriptor n) d)) d names.

(** The descriptor of the batch that the dictionary maps the package
    cached under [path] to: the last one listed with that path. *)
Definition batch_owner (heap : Heap) (descs : list nat) (path : string)
    : option nat :=
  last (filter (λ r, desc_path <$> heap !! r = Some path) descs).

(** The package cached for a descriptor, if there is one. *)
Definition cached_package (g : Globals) (d : PackageDescriptor) : option Package :=
  match _cached_packages g !! desc_path d with
  | Some (Some pkg, _) => Some pkg
  | _ => None
  end.

(** The loader has evaluated the condition of every group dependency of
    the packages of a batch. *)
Definition group_conditions_evaluated (g : Globals) (heap : Heap)
    (descs : list nat) : Prop :=
  Forall (λ r, match heap !! r ≫= cached_package g with
               | Some pkg => Forall (λ gd, group_evaluated_condition gd ≠ None)
                                    (group_depends pkg)
               | None => True
               end) descs.

(** The heap after the second loop of [augment_packages] has gone through
    [entries] without meeting an unevaluated condition. *)
Definition augmented (pkgs : PkgsDict) (entries : PkgsDict) (heap : Heap) : Heap :=
  foldl (λ h e, alter (add_members (group_members pkgs e.2.1)) e.2.2 h)
        heap entries.

(** What holds of the dictionary while the first loop builds it: one entry
    per key, each for a descriptor of the heap and the package cached for
    its path. *)
Definition pkgs_ok (g : Globals) (heap : Heap) (pkgs : PkgsDict) : Prop :=
  NoDup pkgs.*1 ∧
  ∀ p pkg r, (p, (pkg, r)) ∈ pkgs →
    ∃ d, heap !! r = Some d ∧ desc_path d = p ∧ cached_package g d = Some pkg.

(** The loader has evaluated the condition of every group membership of
    the packages of a batch. *)
Definition membership_conditions_evaluated (g : Globals) (heap : Heap)
    (descs : list nat) : Prop :=
  Forall (λ r, match heap !! r ≫= cached_package g with
               | Some pkg => Forall (λ m, group_evaluated_condition m ≠ None)
                                    (member_of_groups pkg)
               | None => True
               end) descs.

(** Some package of the batch has a group dependency whose condition is
    true, so that its members are asked for. *)
Definition uses_groups (g : Globals) (heap : Heap) (descs : list nat) : Prop :=
  Exists (λ r, match heap !! r ≫= cached_package g with
               | Some pkg => Exists group_condition_true (group_depends pkg)
               | None => False
               end) descs.

(** The dependency sets of [d'] hold what those of [d] hold, and the rest
    of the descriptor is the same. *)
Definition deps_grow (d d' : PackageDescriptor) : Prop :=
  desc_path d' = desc_path d ∧ ∀ c, desc_deps c d ⊆ desc_deps c d'.

Definition heap_grows (heap heap' : Heap) : Prop :=
  ∀ r d, heap !! r = Some d → ∃ d', heap' !! r = Some d' ∧ deps_grow d d'.

(** The scanner's protocol: descriptors on a heap, the module globals, and
    calls of [identify] on one descriptor or of [augment_packages] on a
    batch.  A call changes the system whether it returns or raises. *)
Record System := {
  sys_heap : Heap;
  sys_globals : Globals;
}.

Inductive Call :=
  | CallIdentify (r : nat)
  | CallAugment (descs : list nat).

Definition do_call (w : World) (s : System) (c : Call) : System :=
  match c with
  | CallIdentify r =>
      match sys_heap s !! r with
      | Some d =>
          let '(_, (d', g')) := identify w (d, sys_globals s) in
          {| sys_heap := <[r := d']> (sys_heap s); sys_globals := g' |}
      | None => s
      end
  | CallAugment descs =>
      {| sys_heap := (augment_packages (sys_globals s) descs (sys_heap s)).2;
         sys_globals := sys_globals s |}
  end.

Definition do_calls (w : World) (s : System) (calls : list Call) : System :=
  foldl (do_call w) s calls.

(** [identify] called on each descriptor of the heap in turn. *)
Fixpoint identify_all (w : World) (descs : list PackageDescriptor) (g : Globals)
    : list PackageDescriptor * Globals :=
  match descs with
  | [] => ([], g)
  | d :: descs' =>
      let '(_, (d', g')) := identify w (d, g) in
      let '(ds, g'') := identify_all w descs' g' in
      (d' :: ds, g'')
  end.

(** ** A sample workspace *)

Definition plain_depend (n : string) (condition : bool) : Dependency :=
  {| dep_name := n; dep_evaluated_condition := Some condition;
     version_lte := None; version_lt := None; version_gte := None;
     version_gt := None; version_eq := None |}.

(** [<build_depend version_gte="1.2">rclcpp</build_depend>] *)
Definition rclcpp_depend : Dependency :=
  {| dep_name := "rclcpp"; dep_evaluated_condition := Some true;
     version_lte := None; version_lt := None; version_gte := Some "1.2";
     version_gt := None; version_eq := None |}.

Definition bare_package (n : string) (decl : BuildTypeDecl) : Package :=
  {| name := n; version := "0.1.0";
     build_depends := []; buildtool_depends := [];
     build_export_depends := []; buildtool_export_depends := [];
     exec_depends := []; test_depends := [];
     group_depends := []; member_of_groups := [];
     build_type_decl := decl |}.

(** One build dependency with a true condition and a lower bound, one exec
    dependency with a false condition. *)
Definition demo_package : Package :=
  {| name := "demo"; version := "0.1.0";
     build_depends := [rclcpp_depend]; buildtool_depends := [];
     build_export_depends := []; buildtool_export_depends := [];
     exec_depends := [plain_depend "rviz" false]; test_depends := [];
     group_depends := []; member_of_groups := [];
     build_type_decl := SingleBuildType "ament_cmake" |}.

Definition python_package : Package :=
  {| name := "demo_py"; version := "0.1.0";
     build_depends := [plain_depend "rclpy" true]; buildtool_depends := [];
     build_export_depends := []; buildtool_export_depends := [];
     exec_depends := []; test_depends := [];
     group_depends := []; member_of_groups := [];
     build_type_decl := SingleBuildType "ament_python" |}.

(** A manifest with two [<build_type>] exports. *)
Definition ambiguous_package : Package :=
  bare_package "ambiguous" SeveralBuildTypes.

(** A package that depends on the group [drivers], and a member of it. *)
Definition group_package : Package :=
  {| name := "robot"; version := "0.1.0";
     build_depends := []; buildtool_depends := [];
     build_export_depends := []; buildtool_export_depends := [];
     exec_depends := []; test_depends := [];
     group_depends := [{| group_name := "drivers";
                          group_evaluated_condition := Some true |}];
     member_of_groups := [];
     build_type_decl := SingleBuildType "ament_cmake" |}.

Definition member_package : Package :=
  {| name := "lidar"; version := "0.1.0";
     build_depends := []; buildtool_depends := [];
     build_export_depends := []; buildtool_export_depends := [];
     exec_depends := []; test_depends := [];
     group_depends := [];
     member_of_groups := [{| group_name := "drivers";
                             group_evaluated_condition := Some true |}];
     build_type_decl := SingleBuildType "ament_cmake" |}.

(** The directories of the workspace:
    - [/ws/demo], [/ws/robot], [/ws/lidar]: a manifest each;
    - [/ws/demo_py]: an [ament_python] manifest and no [setup.py];
    - [/ws/ambiguous]: a manifest with two build types;
    - [/ws/broken]: a manifest the parser rejects;
    - [/ws/ignored]: the manifest of [/ws/demo] and a [CATKIN_IGNORE] file;
    - [/ws/ignored_py]: the manifest of [/ws/demo_py], no [setup.py], and
      an [AMENT_IGNORE] file;
    - anything else: nothing. *)
Definition demo_world : World :=
  {| path_exists := λ p,
       bool_decide (p ∈ ["/ws/ignored/CATKIN_IGNORE";
                         "/ws/ignored_py/AMENT_IGNORE"]);
     path_is_file := λ p,
       bool_decide (p ∈ ["/ws/ignored/CATKIN_IGNORE";
                         "/ws/ignored_py/AMENT_IGNORE"]);
     package_exists_at := λ p,
       bool_decide (p ∈ ["/ws/demo"; "/ws/demo_py"; "/ws/ambiguous";
                         "/ws/broken"; "/ws/ignored"; "/ws/ignored_py";
                         "/ws/robot"; "/ws/lidar"]);
     parse_package := λ p,
       if String.eqb p "/ws/demo_py" then Parsed python_package
       else if String.eqb p "/ws/ignored_py" then Parsed python_package
       else if String.eqb p "/ws/ambiguous" then Parsed ambiguous_package
       else if String.eqb p "/ws/broken" then ParseFails ParseInvalidPackage
       else if String.eqb p "/ws/robot" then Parsed group_package
       else if String.eqb p "/ws/lidar" then Parsed member_package
       else Parsed demo_package;
     evaluate_conditions := λ pkg, pkg |}.

Definition no_dependencies : Dependencies :=
  {| deps_build := ∅; deps_run := ∅; deps_test := ∅ |}.

(** A descriptor as the scanner creates it. *)
Definition fresh_descriptor (path : string) : PackageDescriptor :=
  {| desc_path := path; desc_type := None; desc_name := None;
     desc_dependencies := no_dependencies; desc_metadata := ∅ |}.

(** A descriptor another extension has typed already. *)
Definition typed_descriptor (path t : string) : PackageDescriptor :=
  {| desc_path := path; desc_type := Some t; desc_name := None;
     desc_dependencies := no_dependencies; desc_metadata := ∅ |}.

(** A descriptor the configuration has named already. *)
Definition named_descriptor (path n : string) : PackageDescriptor :=
  {| desc_path := path; desc_type := None; desc_name := Some n;
     desc_dependencies := no_dependencies; desc_metadata := ∅ |}.

(** The descriptors of [/ws/robot] and [/ws/lidar] and the globals, once
    [identify] has been called on each. *)
Definition robot_lidar_scan : list PackageDescriptor * Globals :=
  identify_all demo_world
    [fresh_descriptor "/ws/robot"; fresh_descriptor "/ws/lidar"]
    initial_globals.

(** The same with two descriptors for [/ws/robot]. *)
Definition twin_robot_scan : list PackageDescriptor * Globals :=
  identify_all demo_world
    [fresh_descriptor "/ws/robot"; fresh_descriptor "/ws/robot";
     fresh_descriptor "/ws/lidar"]
    initial_globals.

(** A descriptor for [/ws/robot] that already holds a build dependency on
    [lidar], with a version bound. *)
Definition pinned_robot : PackageDescriptor :=
  {| desc_path := "/ws/robot"; desc_type := None; desc_name := None;
     desc_dependencies :=
       {| deps_build := {["lidar" := {["version_gte" := "2.0"]}]};
          deps_run := ∅; deps_test := ∅ |};
     desc_metadata := ∅ |}.

Definition pinned_system : System :=
  {| sys_heap := [pinned_robot; fresh_descriptor "/ws/lidar"];
     sys_globals := initial_globals |}.

(** ** Further notions: what the calls leave alone *)

(** [g'] is [g] with more records in the log, none of them a call of the
    loader or of the classifier; the cache is the same. *)
Definition logs_only (g g' : Globals) : Prop :=
  _cached_packages g' = _cached_packages g ∧
  ∃ es : list Event, events g' = (events g ++ es)%list ∧
        Forall (λ e, ∃ message, e = LoggedError message) es.

(** The cache keeps its entries and the log its records. *)
Definition globals_grow (g g' : Globals) : Prop :=
  _cached_packages g ⊆ _cached_packages g' ∧ events g `prefix_of` events g'.


(** The type of [d'] is that of [d], or one [identify] has set. *)
Definition type_kept_or_set (d d' : PackageDescriptor) : Prop :=
  desc_type d' = desc_type d ∨ ∃ bt, desc_type d' = Some ("ros." ++ bt).

(** What [augment_packages] may do to a descriptor: nothing outside the
    build and the run set, which keep what they hold and may gain names
    without metadata. *)
Definition members_added (d d' : PackageDescriptor) : Prop :=
  desc_path d' = desc_path d ∧ desc_type d' = desc_type d ∧
  desc_name d' = desc_name d ∧ desc_metadata d' = desc_metadata d ∧
  desc_deps Test d' = desc_deps Test d ∧
  (∀ c, desc_deps c d ⊆ desc_deps c d') ∧
  ∀ c n md, desc_deps c d !! n = None → desc_deps c d' !! n = Some md → md = ∅.

Definition heap_members_added (heap heap' : Heap) : Prop :=
  length heap' = length heap ∧
  ∀ r d, heap !! r = Some d → ∃ d', heap' !! r = Some d' ∧ members_added d d'.

(** A relation on the globals, as one on the states of [identify]. *)
Definition on_globals (R : relation Globals) : relation IdState :=
  λ s s', R s.2 s'.2.

(** The header of a descriptor and the globals, which the dependency
    loops do not touch. *)
Definition header_kept (s s' : IdState) : Prop :=
  s'.2 = s.2 ∧ desc_path s'.1 = desc_path s.1 ∧
  desc_type s'.1 = desc_type s.1 ∧ desc_name s'.1 = desc_name s.1 ∧
  desc_metadata s'.1 = desc_metadata s.1.

(** A computation whose outcome and effect on the descriptor do not
    depend on the globals it runs in. *)
Definition globals_blind {A} (m : Py IdState A) : Prop :=
  ∀ d g g', (m (d, g')).1 = (m (d, g)).1 ∧ (m (d, g')).2.1 = (m (d, g)).2.1.

(** The paths of the descriptors of a batch. *)
Definition batch_paths (heap : Heap) (descs : list nat) : list (option string) :=
  (λ r, desc_path <$> heap !! r) <$> descs.

(** ** A second sample workspace *)

(** A build dependency whose condition was never evaluated, after one
    that was. *)
Definition unevaluated_package : Package :=
  {| name := "raw"; version := "0.2.0";
     build_depends :=
       [plain_depend "rclcpp" true;
        {| dep_name := "rviz"; dep_evaluated_condition := None;
           version_lte := None; version_lt := None; version_gte := None;
           version_gt := None; version_eq := None |}];
     buildtool_depends := [];
     build_export_depends := []; buildtool_export_depends := [];
     exec_depends := []; test_depends := [plain_depend "gtest" true];
     group_depends := []; member_of_groups := [];
     build_type_decl := SingleBuildType "ament_cmake" |}.

(** A group dependency whose condition was never evaluated. *)
Definition unevaluated_group_package : Package :=
  {| name := "rawgroup"; version := "0.2.0";
     build_depends := []; buildtool_depends := [];
     build_export_depends := []; buildtool_export_depends := [];
     exec_depends := []; test_depends := [];
     group_depends := [{| group_name := "drivers";
                          group_evaluated_condition := None |}];
     member_of_groups := [];
     build_type_decl := SingleBuildType "ament_cmake" |}.

(** The directories:
    - [/ws/dry]: no [package.xml], a [manifest.xml];
    - [/ws/blank]: a manifest whose build type is the empty string;
    - [/ws/py]: an [ament_python] manifest and a [setup.py] file;
    - [/ws/raw], [/ws/rawgroup]: manifests with an unevaluated condition;
    - [/ws/ambiguous]: a manifest with two build types;
    - [/ws/robot], [/ws/lidar]: as in the first workspace;
    - anything else: the manifest of [/ws/demo]. *)
Definition second_world : World :=
  {| path_exists := λ p, bool_decide (p ∈ ["/ws/dry/manifest.xml"; "/ws/py/setup.py"]);
     path_is_file := λ p, bool_decide (p ∈ ["/ws/dry/manifest.xml"; "/ws/py/setup.py"]);
     package_exists_at := λ p, negb (String.eqb p "/ws/dry");
     parse_package := λ p,
       if String.eqb p "/ws/blank" then Parsed (bare_package "blank" (SingleBuildType ""))
       else if String.eqb p "/ws/py" then Parsed python_package
       else if String.eqb p "/ws/raw" then Parsed unevaluated_package
       else if String.eqb p "/ws/rawgroup" then Parsed unevaluated_group_package
       else if String.eqb p "/ws/ambiguous" then Parsed ambiguous_package
       else if String.eqb p "/ws/robot" then Parsed group_package
       else if String.eqb p "/ws/lidar" then Parsed member_package
       else Parsed demo_package;
     evaluate_conditions := λ pkg, pkg |}.

(** The descriptors of [/ws/rawgroup] and [/ws/lidar], once identified. *)
Definition rawgroup_scan : list PackageDescriptor * Globals :=
  identify_all second_world
    [fresh_descriptor "/ws/rawgroup"; fresh_descriptor "/ws/lidar"]
    initial_globals.

(** ** A third sample workspace *)

(** A package that declares, under a condition that was never evaluated,
    that it belongs to a group. *)
Definition unevaluated_member_package : Package :=
  {| name := "sonar"; version := "0.3.0";
     build_depends := []; buildtool_depends := [];
     build_export_depends := []; buildtool_export_depends := [];
     exec_depends := []; test_depends := [];
     group_depends := [];
     member_of_groups := [{| group_name := "drivers";
                             group_evaluated_condition := None |}];
     build_type_decl := SingleBuildType "ament_cmake" |}.

(** The directories:
    - [/ws/robot]: as in the first workspace;
    - [/ws/sonar]: a manifest with an unevaluated membership condition;
    - anything else: the manifest of [/ws/demo]. *)
Definition third_world : World :=
  {| path_exists := λ p, false;
     path_is_file := λ p, false;
     package_exists_at := λ p, true;
     parse_package := λ p,
       if String.eqb p "/ws/robot" then Parsed group_package
       else if String.eqb p "/ws/sonar" then Parsed unevaluated_member_package
       else Parsed demo_package;
     evaluate_conditions := λ pkg, pkg |}.

(** The descriptors of [/ws/robot] and [/ws/sonar], once identified. *)
Definition robot_sonar_scan : list PackageDescriptor * Globals :=
  identify_all third_world
    [fresh_descriptor "/ws/robot"; fresh_descriptor "/ws/sonar"]
    initial_globals.

(** ** The monad: basic facts *)

Section Steady.
Context {S : Type} (R : relation S) `{!PreOrder R}.

(** A computation is steady for [R] when every run, returning or
    raising, ends in a state related to the one it started in. *)
Definition steady {A} (m : Py S A) : Prop := ∀ s, R s (m s).2.

Lemma steady_ret {A} (a : A) : steady (py_ret a).
Proof. intros s. reflexivity. Qed.

Lemma steady_raise {A} e : steady (@raise S A e).
Proof. intros s. reflexivity. Qed.

Lemma steady_lift {A} (o : Outcome A) : steady (lift o).
Proof. intros s. reflexivity. Qed.

Lemma steady_get : steady get.
Proof. intros s. reflexivity. Qed.

Lemma steady_modify f : (∀ s, R s (f s)) → steady (modify f).
Proof. intros Hf s. apply Hf. Qed.

Lemma steady_bind {A B} (m : Py S A) (k : A → Py S B) :
  steady m → (∀ a, steady (k a)) → steady (py_bind m k).
Proof.
  intros Hm Hk s. unfold py_bind.
  specialize (Hm s). destruct (m s) as [[a|e] s1]; simpl in *; [|done].
  etrans; [exact Hm|apply Hk].
Qed.

Lemma steady_for_each {A} (l : list A) (body : A → Py S unit) :
  (∀ x, x ∈ l → steady (body x)) → steady (for_each l body).
Proof.
  induction l as [|x l IH]; intros Hb; simpl.
  - apply steady_ret.
  - apply steady_bind.
    + apply Hb. left.
    + intros _. apply IH. intros y Hy. apply Hb. by right.
Qed.
End Steady.

Lemma run_bind_ret {S A B} (m : Py S A) (k : A → Py S B) s a s' :
  m s = (Returned a, s') → py_bind m k s = k a s'.
Proof. unfold py_bind. by intros ->. Qed.

Lemma run_bind_raise {S A B} (m : Py S A) (k : A → Py S B) s e s' :
  m s = (Raised e, s') → py_bind m k s = (Raised e, s').
Proof. unfold py_bind. by intros ->. Qed.

Lemma for_each_app {S A} (l1 l2 : list A) (body : A → Py S unit) s :
  for_each (l1 ++ l2) body s =
  match for_each l1 body s with
  | (Returned _, s1) => for_each l2 body s1
  | (Raised e, s1) => (Raised e, s1)
  end.
Proof.
  revert s. induction l1 as [|x l1 IH]; intros s; simpl; [done|].
  unfold py_bind. destruct (body x s) as [[[]|e] s1]; [apply IH|done].
Qed.

(** ** The manifest cache *)

Section Cache.
Variable w : World.

Lemma _get_package_run path g :
  _get_package w path g =
  (Returned (if package_exists_at w path then
               match parse_package w path with
               | Parsed raw => Some (evaluate_conditions w raw)
               | ParseFails _ => None
               end
             else None),
   with_events g [LoaderCall path]).
Proof.
  unfold _get_package, py_bind, emit, modify, py_ret, with_events. simpl.
  destruct (package_exists_at w path); simpl; [|done].
  by destruct (parse_package w path) as [pkg|[]].
Qed.

Lemma lookup_hit path v g :
  _cached_packages g !! path = Some v →
  get_package_with_build_type w path g = (Returned v, g).
Proof.
  intros Hc. unfold get_package_with_build_type, py_bind, get, py_ret.
  simpl. by rewrite !Hc.
Qed.

Lemma lookup_miss path g :
  _cached_packages g !! path = None →
  get_package_with_build_type w path g =
  match resolve w path with
  | Returned v =>
      (Returned v, with_cached (with_events g (resolve_events w path)) path v)
  | Raised e => (Raised e, with_events g (resolve_events w path))
  end.
Proof.
  intros Hc. unfold get_package_with_build_type, py_bind at 1 2, get.
  simpl. rewrite Hc. unfold py_bind at 1. rewrite _get_package_run.
  unfold resolve, resolve_events.
  destruct (package_exists_at w path); simpl.
  - destruct (parse_package w path) as [raw|f]; simpl.
    + unfold py_bind, _get_build_type, emit, modify, get_build_type, get,
        cache_store, py_ret, raise, with_cached, with_events. simpl.
      destruct (build_type_decl (evaluate_conditions w raw)); simpl.
      * rewrite lookup_insert_eq. by rewrite <- app_assoc.
      * by rewrite <- app_assoc.
    + unfold py_bind, cache_store, modify, get, py_ret, with_cached,
        with_events. simpl. by rewrite lookup_insert_eq.
  - unfold py_bind, cache_store, modify, get, py_ret, with_cached,
      with_events. simpl. by rewrite lookup_insert_eq.
Qed.

Lemma cache_consistent_initial : cache_consistent w initial_globals.
Proof. intros path v Hc. simpl in Hc. by rewrite lookup_empty in Hc. Qed.

Lemma cache_consistent_events g es :
  cache_consistent w g → cache_consistent w (with_events g es).
Proof. intros H path v Hc. by apply H. Qed.

Lemma cache_consistent_lookup path g :
  cache_consistent w g →
  cache_consistent w (get_package_with_build_type w path g).2.
Proof.
  intros Hg. destruct (_cached_packages g !! path) as [v|] eqn:Hc.
  - by rewrite (lookup_hit _ _ _ Hc).
  - rewrite (lookup_miss _ _ Hc).
    destruct (resolve w path) as [v|e] eqn:Hr; simpl.
    + intros p v'. simpl. rewrite lookup_insert. case_decide; subst.
      * by intros [= <-].
      * apply Hg.
    + by apply cache_consistent_events.
Qed.

(** Under a consistent cache a lookup answers as the world does, cached
    or not. *)
Lemma lookup_consistent path g :
  cache_consistent w g →
  (get_package_with_build_type w path g).1 = resolve w path.
Proof.
  intros Hg. destruct (_cached_packages g !! path) as [v|] eqn:Hc.
  - rewrite (lookup_hit _ _ _ Hc). simpl. symmetry. by apply Hg.
  - rewrite (lookup_miss _ _ Hc). by destruct (resolve w path).
Qed.
End Cache.

(** ** Dependency sets *)

Lemma set_add_lookup dd (s : DepSet) n :
  set_add dd s !! n =
  match s !! n with
  | Some md => Some md
  | None => if decide (dd_name dd = n) then Some (dd_metadata dd) else None
  end.
Proof.
  unfold set_add. destruct (s !! dd_name dd) as [md|] eqn:Hs.
  - destruct (s !! n) eqn:Hn; [done|]. case_decide; [congruence|done].
  - rewrite lookup_insert. case_decide; subst.
    + by rewrite Hs.
    + by destruct (s !! n).
Qed.

Lemma set_add_subseteq dd (s : DepSet) : s ⊆ set_add dd s.
Proof.
  apply map_subseteq_spec. intros n md Hn. by rewrite set_add_lookup, Hn.
Qed.

Lemma add_all_lookup l (s : DepSet) n :
  add_all l s !! n =
  match s !! n with
  | Some md => Some md
  | None => _create_metadata <$> first_named n l
  end.
Proof.
  revert s. induction l as [|d l IH]; intros s; simpl.
  - by destruct (s !! n).
  - unfold add_all in *. simpl. rewrite IH, set_add_lookup. simpl.
    unfold first_named. rewrite filter_cons.
    destruct (s !! n); [done|]. by case_decide.
Qed.

Lemma first_named_Some n l d :
  first_named n l = Some d → d ∈ l ∧ dep_name d = n.
Proof.
  unfold first_named. intros Hd. apply head_Some_elem_of in Hd.
  apply list_elem_of_filter in Hd. tauto.
Qed.

Lemma first_named_elem n l d :
  d ∈ l → dep_name d = n → is_Some (first_named n l).
Proof.
  unfold first_named. intros Hd Hn.
  assert (d ∈ filter (λ d', dep_name d' = n) l) as Hd'
    by (by apply list_elem_of_filter).
  destruct (filter _ l); [by apply elem_of_nil in Hd'|]. simpl. eauto.
Qed.

Lemma add_all_dom l (s : DepSet) :
  dom (add_all l s) = dom s ∪ list_to_set (dep_name <$> l).
Proof.
  apply set_eq. intros n.
  rewrite elem_of_union, !elem_of_dom, add_all_lookup, elem_of_list_to_set,
    list_elem_of_fmap.
  destruct (s !! n) as [md|] eqn:Hs.
  - split; [intros _; left|]; eauto.
  - split.
    + intros [md Hmd]. right.
      destruct (first_named n l) as [d|] eqn:Hf; [|done].
      apply first_named_Some in Hf as [? ?]. eauto.
    + intros [[? [=]]|(d & -> & Hd)].
      destruct (first_named_elem (dep_name d) l d Hd eq_refl) as [d' ->].
      simpl. eauto.
Qed.

(** ** Version-bound metadata *)

Lemma create_metadata_lookup d key :
  _create_metadata d !! key = bound_attribute key d.
Proof.
  unfold _create_metadata, bound_attribute. simpl.
  repeat match goal with
         | |- context [String.eqb key ?k] =>
             destruct (String.eqb_spec key k) as [->|?]
         end;
    destruct (version_lte d), (version_lt d), (version_gte d),
      (version_gt d), (version_eq d);
    by simplify_map_eq.
Qed.

(** ** The dependency loops of [identify] *)

Lemma routed_deps c c' l desc :
  desc_deps c' (routed c l desc) =
  if decide (c' = c) then add_all (true_depends l) (desc_deps c' desc)
  else desc_deps c' desc.
Proof.
  unfold routed, add_all. revert desc.
  induction (true_depends l) as [|d l' IH]; intros desc; simpl.
  - by case_decide.
  - rewrite IH. case_decide; subst; [|by destruct c, c'].
    by destruct c.
Qed.

Lemma routed_frame c l desc :
  desc_path (routed c l desc) = desc_path desc ∧
  desc_type (routed c l desc) = desc_type desc ∧
  desc_name (routed c l desc) = desc_name desc ∧
  desc_metadata (routed c l desc) = desc_metadata desc.
Proof.
  unfold routed. revert desc.
  induction (true_depends l) as [|d l' IH]; intros desc; simpl; [done|].
  destruct (IH (add_dependency c (descriptor_of d) desc)) as (-> & -> & -> & ->).
  done.
Qed.

(** ** What [identify] can change *)

#[global] Instance adds_from_preorder pkg : PreOrder (adds_from pkg).
Proof.
  split.
  - intros d. unfold adds_from. split_and!; eauto.
    intros c n md Hn Hn'. congruence.
  - intros d1 d2 d3 (Hp & Hn & Hu & Hs & Ha) (Hp' & Hn' & Hu' & Hs' & Ha').
    unfold adds_from. split_and!.
    + congruence.
    + eauto.
    + intros H1. destruct (Hu H1) as [H2|H2]; eauto.
    + intros c. etrans; [apply Hs|apply Hs'].
    + intros c n md H1 H3.
      destruct (desc_deps c d2 !! n) as [md2|] eqn:H2.
      * pose proof (Hs' c) as Hsub. rewrite map_subseteq_spec in Hsub.
        apply Hsub in H2 as H2'. rewrite H3 in H2'. injection H2' as ->.
        eauto.
      * eauto.
Qed.

#[global] Instance on_desc_preorder R `{!PreOrder R} : PreOrder (on_desc R).
Proof.
  split.
  - intros s. unfold on_desc. reflexivity.
  - intros s1 s2 s3. unfold on_desc. intros. by etrans.
Qed.

Lemma steady_on_snd {A} (R : relation PackageDescriptor) `{!PreOrder R}
    (m : Py Globals A) :
  steady (on_desc R) (on_snd m).
Proof.
  intros s. unfold on_desc, on_snd. destruct (m s.2). simpl. reflexivity.
Qed.

Lemma add_dependency_adds pkg c d desc :
  d ∈ category_depends c pkg → condition_true d →
  adds_from pkg desc (add_dependency c (descriptor_of d) desc).
Proof.
  intros Hd Ht. unfold adds_from. split_and!; try done.
  - eauto.
  - intros c'. unfold desc_deps. simpl.
    destruct c, c'; simpl; try done; apply set_add_subseteq.
  - intros c' n md Hn Hn'.
    assert (c' = c ∧ set_add (descriptor_of d) (desc_deps c desc) !! n = Some md)
      as [-> Hadd].
    { unfold desc_deps in *. destruct c, c'; simpl in *; try done; congruence. }
    rewrite set_add_lookup, Hn in Hadd. simpl in Hadd.
    case_decide; [|done]. exists d. split_and!; try done. congruence.
Qed.

Ltac steady_step :=
  first [ apply steady_ret | apply steady_raise | apply steady_get
        | apply steady_on_snd ];
  apply _.

Section Identify.
Variable w : World.

Lemma add_depends_run c l desc g :
  (∀ d, d ∈ l → dep_evaluated_condition d ≠ None) →
  add_depends c l (desc, g) = (Returned tt, (routed c l desc, g)).
Proof.
  unfold add_depends, routed, true_depends. revert desc.
  induction l as [|d l IH]; intros desc Hl; simpl; [done|].
  assert (∀ d', d' ∈ l → dep_evaluated_condition d' ≠ None) as Hl'
    by (intros d' Hd'; apply Hl; by right).
  unfold py_bind at 1.
  destruct (dep_evaluated_condition d) as [[]|] eqn:Hd.
  - rewrite filter_cons_True by done. simpl. by rewrite IH.
  - rewrite filter_cons_False by (unfold condition_true; congruence).
    simpl. by rewrite IH.
  - exfalso. by apply (Hl d); [left|].
Qed.

Lemma populate_no_setup_py pkg desc g :
  path_is_file w (path_join (desc_path desc) "setup.py") = false →
  populate w pkg "ament_python" (desc, g) =
  (Raised IgnoreLocationException,
   (desc, with_events g [LoggedError
                           (no_setup_py_message (desc_path desc) "ament_python")])).
Proof.
  intros Hf. unfold populate. unfold py_bind at 1 2. simpl.
  rewrite Hf. simpl. done.
Qed.

Lemma conditions_evaluated_elem pkg c d :
  conditions_evaluated pkg → d ∈ category_depends c pkg →
  dep_evaluated_condition d ≠ None.
Proof.
  unfold conditions_evaluated. rewrite Forall_forall. intros H Hd.
  apply H. rewrite !elem_of_app. destruct c; auto.
Qed.

Lemma populate_run pkg build_type desc g :
  conditions_evaluated pkg →
  (build_type = "ament_python" →
   path_is_file w (path_join (desc_path desc) "setup.py") = true) →
  populate w pkg build_type (desc, g) =
  (Returned tt, (populated pkg build_type desc, g)).
Proof.
  intros Hev Hf. unfold populate, populated.
  rewrite (run_bind_ret get _ _ (desc, g) (desc, g) eq_refl). cbn [fst snd].
  erewrite run_bind_ret; cycle 1.
  { destruct (String.eqb_spec build_type "ament_python") as [->|]; [|done].
    by rewrite Hf. }
  erewrite run_bind_ret by done.
  rewrite (run_bind_ret _ _ _ tt
             (match desc_name desc with
              | None => set_name (name pkg) (set_type ("ros." ++ build_type) desc)
              | Some _ => set_type ("ros." ++ build_type) desc
              end, g)); cycle 1.
  { erewrite run_bind_ret by done. cbn [fst snd]. simpl.
    by destruct (desc_name desc). }
  erewrite run_bind_ret by done. cbn [fst snd].
  erewrite run_bind_ret
    by (apply add_depends_run; intros d Hd;
        by apply (conditions_evaluated_elem pkg Build)).
  erewrite run_bind_ret
    by (apply add_depends_run; intros d Hd;
        by apply (conditions_evaluated_elem pkg Run)).
  erewrite run_bind_ret
    by (apply add_depends_run; intros d Hd;
        by apply (conditions_evaluated_elem pkg Test)).
  by destruct (String.eqb build_type "ament_python").
Qed.

Lemma add_depends_steady pkg c l :
  (∀ d, d ∈ l → d ∈ category_depends c pkg) →
  steady (on_desc (adds_from pkg)) (add_depends c l).
Proof.
  intros Hl. apply steady_for_each; [apply _|]. intros d Hd.
  destruct (dep_evaluated_condition d) as [[]|] eqn:Hc; try steady_step.
  apply steady_modify. intros s. unfold on_desc. simpl.
  apply add_dependency_adds; [by apply Hl|done].
Qed.

Lemma update_desc_steady pkg f :
  (∀ d, adds_from pkg d (f d)) →
  steady (on_desc (adds_from pkg)) (update_desc f).
Proof. intros Hf. apply steady_modify. intros s. apply Hf. Qed.

Lemma set_type_adds pkg t d : adds_from pkg d (set_type t d).
Proof.
  unfold adds_from. split_and!; eauto. intros c n md H1 H2.
  unfold desc_deps in *. simpl in *. congruence.
Qed.

Lemma set_metadata_adds pkg k v d : adds_from pkg d (set_metadata k v d).
Proof.
  unfold adds_from. split_and!; eauto. intros c n md H1 H2.
  unfold desc_deps in *. simpl in *. congruence.
Qed.

Lemma populate_steady pkg build_type :
  steady (on_desc (adds_from pkg)) (populate w pkg build_type).
Proof.
  unfold populate.
  apply steady_bind; [apply _|steady_step|]. intros s.
  apply steady_bind; [apply _| |intros _].
  { destruct (String.eqb build_type "ament_python"); [|steady_step].
    destruct (negb _); [|steady_step].
    apply steady_bind; [apply _|steady_step|]. intros _. steady_step. }
  apply steady_bind; [apply _| |intros _].
  { apply update_desc_steady, set_type_adds. }
  apply steady_bind; [apply _| |intros _].
  { intros s1. unfold py_bind, get. simpl.
    destruct (desc_name s1.1) eqn:Hn; [reflexivity|].
    unfold on_desc, adds_from. simpl. split_and!; eauto.
    - intros n. by rewrite Hn.
    - intros c n md H1 H2. unfold desc_deps in *. simpl in *. congruence. }
  apply steady_bind; [apply _| |intros _].
  { apply update_desc_steady, set_metadata_adds. }
  apply steady_bind; [apply _| |intros _].
  { by apply add_depends_steady. }
  apply steady_bind; [apply _| |intros _].
  { by apply add_depends_steady. }
  apply steady_bind; [apply _| |intros _].
  { by apply add_depends_steady. }
  destruct (String.eqb build_type "ament_python"); [|steady_step].
  apply update_desc_steady, set_metadata_adds.
Qed.

Lemma identify_run desc g :
  identify w (desc, g) =
  if bool_decide (desc_type desc ≠ None ∧ desc_type desc ≠ Some "ros")
  then (Returned tt, (desc, g))
  else if path_exists w (path_join (desc_path desc) "CATKIN_IGNORE")
  then (Raised IgnoreLocationException, (desc, g))
  else if path_exists w (path_join (desc_path desc) "AMENT_IGNORE")
  then (Raised IgnoreLocationException, (desc, g))
  else
    match get_package_with_build_type w (desc_path desc) g with
    | (Raised e, g1) => (Raised e, (desc, g1))
    | (Returned (pkg, build_type), g1) =>
        match wet_package pkg build_type with
        | None =>
            (if path_exists w (path_join (desc_path desc) "manifest.xml")
             then Raised IgnoreLocationException else Returned tt,
             (desc, g1))
        | Some (pkg, build_type) => populate w pkg build_type (desc, g1)
        end
    end.
Proof.
  unfold identify. unfold py_bind at 1. simpl.
  case_bool_decide; [done|].
  destruct (path_exists w (path_join (desc_path desc) "CATKIN_IGNORE")); [done|].
  destruct (path_exists w (path_join (desc_path desc) "AMENT_IGNORE")); [done|].
  unfold py_bind, on_snd. simpl.
  destruct (get_package_with_build_type w (desc_path desc) g)
    as [[[pkg build_type]|e] g1]; [|done].
  destruct (wet_package pkg build_type) as [[pkg' bt]|]; [done|].
  by destruct (path_exists w _).
Qed.

(** [identify] either leaves the descriptor as it is, or has found a
    package with a build type and changes the descriptor within
    [adds_from]. *)
Lemma identify_effect desc g :
  (identify w (desc, g)).2.1 = desc ∨
  ∃ pkg build_type g1,
    get_package_with_build_type w (desc_path desc) g
      = (Returned (Some pkg, Some build_type), g1) ∧
    adds_from pkg desc (identify w (desc, g)).2.1.
Proof.
  rewrite identify_run.
  case_bool_decide; [by left|].
  destruct (path_exists w (path_join (desc_path desc) "CATKIN_IGNORE")); [by left|].
  destruct (path_exists w (path_join (desc_path desc) "AMENT_IGNORE")); [by left|].
  destruct (get_package_with_build_type w (desc_path desc) g)
    as [[[pkg build_type]|e] g1]; [|by left].
  destruct pkg as [pkg|], build_type as [bt|]; simpl; try by left.
  destruct (String.eqb bt ""); [by left|].
  right. exists pkg, bt, g1. split; [done|].
  apply (populate_steady pkg bt (desc, g1)).
Qed.
End Identify.

(** ** Properties of [identify] *)

Section IdentifyProperties.
Variable w : World.

(** Where the lookup finds no package with a build type, [identify]
    leaves the descriptor alone and ends as [no_package_outcome] says. *)
Lemma identify_no_package desc g pkg build_type :
  cache_consistent w g →
  resolve w (desc_path desc) = Returned (pkg, build_type) →
  wet_package pkg build_type = None →
  ∃ g', identify w (desc, g) = (no_package_outcome w desc, (desc, g')).
Proof.
  intros Hg Hr Hw. rewrite identify_run. unfold no_package_outcome.
  case_bool_decide; [by eexists|].
  destruct (path_exists w (path_join (desc_path desc) "CATKIN_IGNORE"));
    [by eexists|].
  destruct (path_exists w (path_join (desc_path desc) "AMENT_IGNORE"));
    [by eexists|].
  pose proof (lookup_consistent w (desc_path desc) g Hg) as Hl.
  destruct (get_package_with_build_type w (desc_path desc) g) as [o g1].
  simpl in Hl. subst o. rewrite Hr, Hw. simpl. by eexists.
Qed.

(** C4.  A descriptor whose path has no manifest file, no legacy
    manifest and no ignore marker, and whose type is unset or the family
    tag: [identify] returns normally and the descriptor is what it was,
    in every field. *)
Theorem identify_no_manifest desc g :
  cache_consistent w g →
  package_exists_at w (desc_path desc) = false →
  path_exists w (path_join (desc_path desc) "manifest.xml") = false →
  path_exists w (path_join (desc_path desc) "CATKIN_IGNORE") = false →
  path_exists w (path_join (desc_path desc) "AMENT_IGNORE") = false →
  desc_type desc = None ∨ desc_type desc = Some "ros" →
  ∃ g', identify w (desc, g) = (Returned tt, (desc, g')).
Proof.
  intros Hg Hm Hl Hc Ha _.
  destruct (identify_no_package desc g None None Hg) as [g' Hi]; [|done|].
  { unfold resolve. by rewrite Hm. }
  exists g'. rewrite Hi. unfold no_package_outcome.
  rewrite Hl, Hc, Ha. simpl. by case_bool_decide.
Qed.

(** C7.  A manifest exists and the parser fails on it, with either of
    its two failures: the loader returns [None], the lookup yields no
    package and no build type, and [identify] ends as it does for a path
    without a package, with a normal return or the skip signal, the
    descriptor untouched. *)
Theorem invalid_manifest_is_absent desc g f :
  cache_consistent w g →
  package_exists_at w (desc_path desc) = true →
  parse_package w (desc_path desc) = ParseFails f →
  (_get_package w (desc_path desc) g).1 = Returned None ∧
  (get_package_with_build_type w (desc_path desc) g).1
    = Returned (None, None) ∧
  (∃ g', identify w (desc, g) = (no_package_outcome w desc, (desc, g'))) ∧
  (no_package_outcome w desc = Returned tt ∨
   no_package_outcome w desc = Raised IgnoreLocationException).
Proof.
  intros Hg Hm Hp.
  assert (resolve w (desc_path desc) = Returned (None, None)) as Hr.
  { unfold resolve. by rewrite Hm, Hp. }
  split_and!.
  - rewrite _get_package_run. simpl. by rewrite Hm, Hp.
  - by rewrite lookup_consistent.
  - by apply (identify_no_package desc g None None).
  - unfold no_package_outcome. case_bool_decide; [by left|].
    destruct (_ || _); [by right|by left].
Qed.

(** C5, amended.  A descriptor whose type is unset or the family tag and
    whose directory holds either ignore marker: [identify] raises
    [IgnoreLocationException]; descriptor, cache and log are what they
    were. *)
Theorem identify_ignore_marker desc g :
  desc_type desc = None ∨ desc_type desc = Some "ros" →
  path_exists w (path_join (desc_path desc) "CATKIN_IGNORE") = true ∨
  path_exists w (path_join (desc_path desc) "AMENT_IGNORE") = true →
  identify w (desc, g) = (Raised IgnoreLocationException, (desc, g)).
Proof.
  intros Ht Hm. rewrite identify_run.
  rewrite bool_decide_eq_false_2 by (intros [? ?]; by destruct Ht).
  destruct (path_exists w (path_join (desc_path desc) "CATKIN_IGNORE"));
    [done|].
  destruct Hm as [? | ->]; done.
Qed.

(** C6, amended.  A descriptor whose type is unset or the family tag,
    whose directory holds no ignore marker, whose manifest classifies to
    [ament_python] and which has no [setup.py] file: [identify] logs one
    error naming the path and the build type and raises
    [IgnoreLocationException]; the descriptor, its type included, is what
    it was. *)
Theorem identify_missing_setup_py desc g pkg g1 :
  desc_type desc = None ∨ desc_type desc = Some "ros" →
  path_exists w (path_join (desc_path desc) "CATKIN_IGNORE") = false →
  path_exists w (path_join (desc_path desc) "AMENT_IGNORE") = false →
  get_package_with_build_type w (desc_path desc) g
    = (Returned (Some pkg, Some "ament_python"), g1) →
  path_is_file w (path_join (desc_path desc) "setup.py") = false →
  identify w (desc, g) =
  (Raised IgnoreLocationException,
   (desc,
    with_events g1
      [LoggedError ("ROS package '" ++ desc_path desc
                      ++ "' with build type 'ament_python' has no 'setup.py' file")])).
Proof.
  intros Ht Hc Ha Hl Hf. rewrite identify_run.
  rewrite bool_decide_eq_false_2 by (intros [? ?]; by destruct Ht).
  rewrite Hc, Ha, Hl. simpl. by rewrite populate_no_setup_py.
Qed.

(** C9.  [identify] never overwrites a name that is set; where the name
    differs afterwards it was unset before and is now the name the
    manifest declares. *)
Theorem identify_name_precedence desc g :
  (∀ n, desc_name desc = Some n →
        desc_name (identify w (desc, g)).2.1 = Some n) ∧
  (desc_name (identify w (desc, g)).2.1 ≠ desc_name desc →
   desc_name desc = None ∧
   ∃ pkg build_type g1,
     get_package_with_build_type w (desc_path desc) g
       = (Returned (Some pkg, Some build_type), g1) ∧
     desc_name (identify w (desc, g)).2.1 = Some (name pkg)).
Proof.
  destruct (identify_effect w desc g)
    as [->|(pkg & bt & g1 & Hl & _ & Hn & Hu & _)].
  - split; [done|]. by intros [].
  - split; [done|]. intros Hne.
    destruct (desc_name desc) as [n|] eqn:Hd.
    + exfalso. apply Hne. by apply Hn.
    + split; [done|]. exists pkg, bt, g1. split; [done|].
      destruct (Hu eq_refl) as [Hn'|Hn']; [|done]. by rewrite Hn' in Hne.
Qed.

(** C8.  Every dependency [identify] adds to a set carries the metadata
    [_create_metadata] builds from a true-conditioned manifest
    dependency of that name, and that metadata holds, of the five
    version-bound keys, exactly those whose attribute is not [None], and
    no other key. *)
Theorem identify_dependency_metadata desc g c n md :
  desc_deps c desc !! n = None →
  desc_deps c (identify w (desc, g)).2.1 !! n = Some md →
  ∃ pkg build_type g1 dep,
    get_package_with_build_type w (desc_path desc) g
      = (Returned (Some pkg, Some build_type), g1) ∧
    dep ∈ category_depends c pkg ∧ dep_name dep = n ∧
    condition_true dep ∧ md = _create_metadata dep ∧
    ∀ key, md !! key = bound_attribute key dep.
Proof.
  intros Hn Hn'.
  destruct (identify_effect w desc g)
    as [Heq|(pkg & bt & g1 & Hl & _ & _ & _ & _ & Ha)].
  - rewrite Heq in Hn'. congruence.
  - destruct (Ha c n md Hn Hn') as (dep & Hd & Hdn & Ht & ->).
    exists pkg, bt, g1, dep. split_and!; try done.
    intros key. apply create_metadata_lookup.
Qed.

(** C1, amended.  A descriptor whose type is unset or the family tag,
    whose directory holds no ignore marker, whose path has a manifest
    with a non-empty build type, with a [setup.py] file where the build
    type is [ament_python], and whose dependencies all have an evaluated
    condition: [identify] returns normally, and each dependency set
    gains exactly the names of the true-conditioned entries of its
    manifest lists (build from build and buildtool depends, run from
    build-export, buildtool-export and exec depends, test from test
    depends), each new name with the metadata of its first such entry;
    what a set held stays, and a name that was in no set and whose
    entries all have a false condition is in no set afterwards. *)
Theorem identify_routes_dependencies desc g pkg build_type g1 :
  desc_type desc = None ∨ desc_type desc = Some "ros" →
  path_exists w (path_join (desc_path desc) "CATKIN_IGNORE") = false →
  path_exists w (path_join (desc_path desc) "AMENT_IGNORE") = false →
  get_package_with_build_type w (desc_path desc) g
    = (Returned (Some pkg, Some build_type), g1) →
  build_type ≠ "" →
  (build_type = "ament_python" →
   path_is_file w (path_join (desc_path desc) "setup.py") = true) →
  conditions_evaluated pkg →
  ∃ desc',
    identify w (desc, g) = (Returned tt, (desc', g1)) ∧
    (∀ c, dom (desc_deps c desc') =
          dom (desc_deps c desc)
            ∪ list_to_set (dep_name <$> true_depends (category_depends c pkg))) ∧
    (∀ c n, desc_deps c desc' !! n =
            match desc_deps c desc !! n with
            | Some md => Some md
            | None => _create_metadata
                        <$> first_named n (true_depends (category_depends c pkg))
            end) ∧
    (∀ n, (∀ c, desc_deps c desc !! n = None) →
          (∀ c d, d ∈ category_depends c pkg → dep_name d = n →
                  dep_evaluated_condition d = Some false) →
          ∀ c, desc_deps c desc' !! n = None).
Proof.
  intros Ht Hc Ha Hl Hbt Hf Hev.
  exists (populated pkg build_type desc).
  assert (∀ c, desc_deps c (populated pkg build_type desc) =
               add_all (true_depends (category_depends c pkg))
                       (desc_deps c desc)) as Hdeps.
  { intros c. unfold populated.
    assert (∀ d k v, desc_deps c (set_metadata k v d) = desc_deps c d)
      as Hmeta by done.
    destruct (String.eqb build_type "ament_python");
      rewrite ?Hmeta, !routed_deps;
      destruct c; simpl; by destruct (desc_name desc). }
  assert (∀ c n, desc_deps c (populated pkg build_type desc) !! n =
            match desc_deps c desc !! n with
            | Some md => Some md
            | None => _create_metadata
                        <$> first_named n (true_depends (category_depends c pkg))
            end) as Hlook.
  { intros c n. by rewrite Hdeps, add_all_lookup. }
  split_and!.
  - rewrite identify_run.
    rewrite bool_decide_eq_false_2 by (intros [? ?]; by destruct Ht).
    rewrite Hc, Ha, Hl. simpl.
    destruct (String.eqb_spec build_type ""); [done|].
    by apply populate_run.
  - intros c. by rewrite Hdeps, add_all_dom.
  - done.
  - intros n Hold Hfalse c. rewrite Hlook, Hold.
    destruct (first_named n _) as [d|] eqn:Hd; [|done].
    apply first_named_Some in Hd as [Hd Hn].
    apply list_elem_of_filter in Hd as [Hd1 Hd2].
    unfold condition_true in Hd1. rewrite (Hfalse c d Hd2 Hn) in Hd1. done.
Qed.
End IdentifyProperties.

(** ** The properties of [identify] on the sample workspace *)

Lemma identify_no_manifest_witness :
  ∃ g', identify demo_world (fresh_descriptor "/ws/empty", initial_globals)
        = (Returned tt, (fresh_descriptor "/ws/empty", g')).
Proof.
  apply identify_no_manifest;
    [apply cache_consistent_initial | reflexivity | reflexivity
    | reflexivity | reflexivity | left; reflexivity].
Defined.

Lemma invalid_manifest_is_absent_witness :
  parse_package demo_world "/ws/broken" = ParseFails ParseInvalidPackage ∧
  (_get_package demo_world "/ws/broken" initial_globals).1 = Returned None ∧
  ∃ g', identify demo_world (fresh_descriptor "/ws/broken", initial_globals)
        = (Returned tt, (fresh_descriptor "/ws/broken", g')).
Proof.
  split; [reflexivity|].
  destruct (invalid_manifest_is_absent demo_world
              (fresh_descriptor "/ws/broken") initial_globals
              ParseInvalidPackage)
    as (Hload & _ & Hid & _);
    [apply cache_consistent_initial | reflexivity | reflexivity |].
  split; [exact Hload | exact Hid].
Defined.

Lemma identify_ignore_marker_witness :
  path_exists demo_world (path_join "/ws/ignored" "CATKIN_IGNORE") = true ∧
  identify demo_world (fresh_descriptor "/ws/ignored", initial_globals)
  = (Raised IgnoreLocationException,
     (fresh_descriptor "/ws/ignored", initial_globals)).
Proof.
  split; [reflexivity|].
  apply identify_ignore_marker; left; reflexivity.
Defined.

(** C5 as stated fails: with an ignore marker in the directory, a
    descriptor that carries another extension's type makes [identify]
    return normally. *)
Lemma ignore_marker_typed_returns :
  path_exists demo_world (path_join "/ws/ignored" "CATKIN_IGNORE") = true ∧
  identify demo_world (typed_descriptor "/ws/ignored" "cmake", initial_globals)
  = (Returned tt, (typed_descriptor "/ws/ignored" "cmake", initial_globals)).
Proof. split; vm_compute; reflexivity. Qed.

Lemma identify_missing_setup_py_witness :
  ∃ g',
    identify demo_world (fresh_descriptor "/ws/demo_py", initial_globals)
    = (Raised IgnoreLocationException, (fresh_descriptor "/ws/demo_py", g')) ∧
    events g' =
      [LoaderCall "/ws/demo_py"; ClassifierCall "demo_py";
       LoggedError "ROS package '/ws/demo_py' with build type 'ament_python' has no 'setup.py' file"].
Proof.
  eexists. split.
  - eapply (identify_missing_setup_py demo_world
              (fresh_descriptor "/ws/demo_py") initial_globals python_package);
      [left; reflexivity | reflexivity | reflexivity
      | vm_compute; reflexivity | reflexivity].
  - vm_compute. reflexivity.
Defined.

(** C6 as stated fails twice over: for an [ament_python] manifest without
    [setup.py], a descriptor typed by another extension makes [identify]
    return normally with nothing logged, and an ignore marker makes it
    raise before the manifest is looked at, again with nothing logged. *)
Lemma missing_setup_py_unlogged :
  (resolve demo_world "/ws/demo_py"
     = Returned (Some python_package, Some "ament_python") ∧
   path_is_file demo_world (path_join "/ws/demo_py" "setup.py") = false ∧
   identify demo_world (typed_descriptor "/ws/demo_py" "cmake", initial_globals)
   = (Returned tt, (typed_descriptor "/ws/demo_py" "cmake", initial_globals))) ∧
  (resolve demo_world "/ws/ignored_py"
     = Returned (Some python_package, Some "ament_python") ∧
   path_is_file demo_world (path_join "/ws/ignored_py" "setup.py") = false ∧
   identify demo_world (fresh_descriptor "/ws/ignored_py", initial_globals)
   = (Raised IgnoreLocationException,
      (fresh_descriptor "/ws/ignored_py", initial_globals))).
Proof. repeat split; vm_compute; reflexivity. Qed.

Lemma identify_name_precedence_witness :
  desc_name (named_descriptor "/ws/demo" "custom") = Some "custom" ∧
  name demo_package ≠ "custom" ∧
  (get_package_with_build_type demo_world "/ws/demo" initial_globals).1
    = Returned (Some demo_package, Some "ament_cmake") ∧
  desc_name (identify demo_world
               (named_descriptor "/ws/demo" "custom", initial_globals)).2.1
    = Some "custom".
Proof.
  split_and!; [reflexivity | discriminate | vm_compute; reflexivity |].
  apply (identify_name_precedence demo_world
           (named_descriptor "/ws/demo" "custom") initial_globals).
  reflexivity.
Defined.

(** The dependency declared [version_gte="1.2"] and nothing else. *)
Example create_metadata_gte :
  _create_metadata rclcpp_depend = {["version_gte" := "1.2"]}.
Proof. vm_compute. reflexivity. Qed.

Lemma identify_dependency_metadata_witness :
  desc_deps Build (fresh_descriptor "/ws/demo") !! "rclcpp" = None ∧
  desc_deps Build
    (identify demo_world (fresh_descriptor "/ws/demo", initial_globals)).2.1
    !! "rclcpp" = Some {["version_gte" := "1.2"]} ∧
  ∃ pkg build_type g1 dep,
    get_package_with_build_type demo_world "/ws/demo" initial_globals
      = (Returned (Some pkg, Some build_type), g1) ∧
    dep ∈ category_depends Build pkg ∧ dep_name dep = "rclcpp" ∧
    condition_true dep ∧
    ({["version_gte" := "1.2"]} : Metadata) = _create_metadata dep ∧
    ∀ key, ({["version_gte" := "1.2"]} : Metadata) !! key
           = bound_attribute key dep.
Proof.
  split; [reflexivity|]. split; [vm_compute; reflexivity|].
  apply (identify_dependency_metadata demo_world
           (fresh_descriptor "/ws/demo") initial_globals Build "rclcpp");
    [reflexivity | vm_compute; reflexivity].
Defined.

Lemma identify_routes_dependencies_witness :
  conditions_evaluated demo_package ∧
  ∃ desc',
    identify demo_world (fresh_descriptor "/ws/demo", initial_globals)
    = (Returned tt,
       (desc', (get_package_with_build_type demo_world "/ws/demo"
                  initial_globals).2)) ∧
    dom (desc_deps Build desc') = {["rclcpp"]} ∧
    dom (desc_deps Run desc') = ∅ ∧
    dom (desc_deps Test desc') = ∅ ∧
    desc_deps Build desc' !! "rclcpp" = Some {["version_gte" := "1.2"]} ∧
    (∀ c, desc_deps c desc' !! "rviz" = None).
Proof.
  assert (conditions_evaluated demo_package) as Hev
    by (repeat constructor; discriminate).
  split; [exact Hev|].
  destruct (identify_routes_dependencies demo_world
              (fresh_descriptor "/ws/demo") initial_globals
              demo_package "ament_cmake"
              (get_package_with_build_type demo_world "/ws/demo"
                 initial_globals).2)
    as (desc' & Hrun & Hdom & Hlook & Hdrop);
    [left; reflexivity | reflexivity | reflexivity | vm_compute; reflexivity
    | discriminate | discriminate | exact Hev |].
  exists desc'. split_and!.
  - exact Hrun.
  - rewrite Hdom. vm_compute. reflexivity.
  - rewrite Hdom. vm_compute. reflexivity.
  - rewrite Hdom. vm_compute. reflexivity.
  - rewrite Hlook. vm_compute. reflexivity.
  - intros c. rewrite Hlook. destruct c; vm_compute; reflexivity.
Defined.

(** C1 as stated fails: a manifest with a build type and a
    true-conditioned build dependency is not enough.  A descriptor typed
    by another extension, a directory with an ignore marker, and an
    [ament_python] manifest without [setup.py] each leave the build set
    empty. *)
Lemma routing_needs_identification :
  rclcpp_depend ∈ build_depends demo_package ∧
  condition_true rclcpp_depend ∧
  plain_depend "rclpy" true ∈ build_depends python_package ∧
  (resolve demo_world "/ws/demo"
     = Returned (Some demo_package, Some "ament_cmake") ∧
   (identify demo_world (typed_descriptor "/ws/demo" "cmake", initial_globals)).1
     = Returned tt ∧
   desc_deps Build
     (identify demo_world
        (typed_descriptor "/ws/demo" "cmake", initial_globals)).2.1 = ∅) ∧
  (resolve demo_world "/ws/ignored"
     = Returned (Some demo_package, Some "ament_cmake") ∧
   (identify demo_world (fresh_descriptor "/ws/ignored", initial_globals)).1
     = Raised IgnoreLocationException ∧
   desc_deps Build
     (identify demo_world
        (fresh_descriptor "/ws/ignored", initial_globals)).2.1 = ∅) ∧
  (resolve demo_world "/ws/demo_py"
     = Returned (Some python_package, Some "ament_python") ∧
   (identify demo_world (fresh_descriptor "/ws/demo_py", initial_globals)).1
     = Raised IgnoreLocationException ∧
   desc_deps Build
     (identify demo_world
        (fresh_descriptor "/ws/demo_py", initial_globals)).2.1 = ∅).
Proof.
  split_and!; try (vm_compute; reflexivity).
  - left.
  - left.
Qed.

(** ** [augment_packages]: what a run computes *)

Lemma add_members_app l1 l2 d :
  add_members (l1 ++ l2) d = add_members l2 (add_members l1 d).
Proof. unfold add_members. by rewrite foldl_app. Qed.

Lemma for_each_add_member r names (heap : Heap) :
  for_each names (add_member r) heap
  = (Returned tt, alter (add_members names) r heap).
Proof.
  revert heap. induction names as [|n names IH]; intros heap; simpl.
  - unfold py_ret. f_equal. symmetry. by apply list_alter_id.
  - unfold py_bind at 1. unfold add_member at 1, py_bind, modify. simpl.
    rewrite IH. f_equal. rewrite !list_alter_alter_eq.
    by apply list_alter_ext.
Qed.

Lemma for_each_ext {S A} (l : list A) (f g : A → Py S unit) :
  (∀ x, f x = g x) → for_each l f = for_each l g.
Proof.
  intros H. induction l as [|x l IH]; simpl; [done|]. by rewrite H, IH.
Qed.

Lemma augment_unfold g descs heap :
  augment_packages g descs heap
  = for_each (collect_pkgs g heap descs [])
             (entry_body (collect_pkgs g heap descs [])) heap.
Proof.
  unfold augment_packages.
  rewrite (run_bind_ret get _ heap heap heap eq_refl).
  apply (f_equal (λ m : Py Heap unit, m heap)), for_each_ext.
  by intros [p [pkg r]].
Qed.

Lemma extract_run gd packages :
  memberships_evaluated packages = true →
  extract_group_members gd packages = Returned (member_names gd packages).
Proof. unfold extract_group_members. by intros ->. Qed.

Lemma group_body_run pkgs r gd heap :
  group_body pkgs r gd heap
  = match group_evaluated_condition gd with
    | None => (Raised AssertionError, heap)
    | Some false => (Returned tt, heap)
    | Some true =>
        if memberships_evaluated (packages_of pkgs)
        then (Returned tt,
              alter (add_members (member_names gd (packages_of pkgs))) r heap)
        else (Raised AssertionError, heap)
    end.
Proof.
  unfold group_body.
  destruct (group_evaluated_condition gd) as [[]|]; [|done|done].
  unfold py_bind, lift, extract_group_members.
  destruct (memberships_evaluated (packages_of pkgs)); [|done].
  apply for_each_add_member.
Qed.

Lemma group_loop_run pkgs r (gds : list GroupRef) (heap : Heap) :
  Forall (group_ok pkgs) gds →
  for_each gds (group_body pkgs r) heap
  = (Returned tt,
     alter (add_members
              (concat ((λ gd, member_names gd (packages_of pkgs))
                         <$> filter group_condition_true gds))) r heap).
Proof.
  intros Hev. revert heap.
  induction Hev as [|gd gds [Hgd Hm] Hev IH]; intros heap; simpl.
  - unfold py_ret. f_equal. symmetry. by apply list_alter_id.
  - pose proof (group_body_run pkgs r gd heap) as Hrun.
    unfold group_condition_true in Hm.
    destruct (group_evaluated_condition gd) as [[]|] eqn:Hc; [| |done].
    + rewrite Hm in Hrun by done.
      rewrite (run_bind_ret _ _ _ _ _ Hrun), IH. f_equal.
      rewrite filter_cons_True by done. simpl.
      rewrite list_alter_alter_eq. apply list_alter_ext; [|done].
      intros d _. simpl. by rewrite add_members_app.
    + rewrite (run_bind_ret _ _ _ _ _ Hrun).
      rewrite filter_cons_False
        by (unfold group_condition_true; congruence).
      simpl. apply IH.
Qed.

(** The second loop ends in [AssertionError] or returns, and returns
    exactly if it gets past every group dependency. *)
Lemma group_loop_outcome pkgs r (gds : list GroupRef) (heap : Heap) :
  (for_each gds (group_body pkgs r) heap).1 = Returned tt ∧
    Forall (group_ok pkgs) gds ∨
  (for_each gds (group_body pkgs r) heap).1 = Raised AssertionError ∧
    ¬ Forall (group_ok pkgs) gds.
Proof.
  revert heap. induction gds as [|gd gds IH]; intros heap; simpl.
  { left. by split. }
  pose proof (group_body_run pkgs r gd heap) as Hrun.
  unfold group_condition_true in *.
  destruct (group_evaluated_condition gd) as [[]|] eqn:Hc.
  - destruct (memberships_evaluated (packages_of pkgs)) eqn:Hm.
    + rewrite (run_bind_ret _ _ _ _ _ Hrun).
      destruct (IH (alter (add_members (member_names gd (packages_of pkgs)))
                      r heap))
        as [[Ho Hf]|[Ho Hf]]; [left|right]; (split; [done|]).
      * constructor; [|done]. split; [congruence|done].
      * intros Hall. apply Hf. by inversion Hall.
    + rewrite (run_bind_raise _ _ _ _ _ Hrun).
      right. split; [done|]. intros Hall. inversion Hall as [|? ? [_ Hg] _].
      unfold group_condition_true in Hg. specialize (Hg Hc). congruence.
  - rewrite (run_bind_ret _ _ _ _ _ Hrun).
    destruct (IH heap) as [[Ho Hf]|[Ho Hf]]; [left|right];
      (split; [done|]).
    + constructor; [|done]. split; [congruence|].
      unfold group_condition_true. congruence.
    + intros Hall. apply Hf. by inversion Hall.
  - rewrite (run_bind_raise _ _ _ _ _ Hrun).
    right. split; [done|]. intros Hall. inversion Hall as [|? ? [Hg _] _].
    congruence.
Qed.

Lemma entries_loop_run pkgs (entries : PkgsDict) (heap : Heap) :
  entries_ok pkgs entries →
  for_each entries (entry_body pkgs) heap
  = (Returned tt, augmented pkgs entries heap).
Proof.
  intros Hev. revert heap.
  induction Hev as [|e entries He Hev IH]; intros heap; simpl; [done|].
  unfold py_bind at 1. unfold entry_body at 1.
  rewrite group_loop_run by done. apply IH.
Qed.

Lemma entries_loop_outcome pkgs (entries : PkgsDict) (heap : Heap) :
  (for_each entries (entry_body pkgs) heap).1 = Returned tt ∧
    entries_ok pkgs entries ∨
  (for_each entries (entry_body pkgs) heap).1 = Raised AssertionError ∧
    ¬ entries_ok pkgs entries.
Proof.
  unfold entries_ok.
  revert heap. induction entries as [|e entries IH]; intros heap; simpl.
  { left. by split. }
  destruct (group_loop_outcome pkgs e.2.2 (group_depends e.2.1) heap)
    as [[Ho Hf]|[Ho Hf]];
    destruct (entry_body pkgs e heap) as [o heap1] eqn:Hrun;
    unfold entry_body in Hrun; rewrite Hrun in Ho; simpl in Ho; subst o.
  - rewrite (run_bind_ret _ _ _ _ _ Hrun).
    destruct (IH heap1) as [[Ho' Hf']|[Ho' Hf']]; [left|right];
      (split; [done|]).
    + by constructor.
    + intros Hall. apply Hf'. by inversion Hall.
  - rewrite (run_bind_raise _ _ _ _ _ Hrun).
    right. split; [done|]. intros Hall. apply Hf. by inversion Hall.
Qed.

Lemma augmented_length pkgs entries heap :
  length (augmented pkgs entries heap) = length heap.
Proof.
  revert heap. induction entries as [|e entries IH]; intros heap; simpl; [done|].
  unfold augmented in *. simpl. by rewrite IH, length_alter.
Qed.

Lemma augmented_lookup_ne pkgs entries heap r :
  r ∉ entries.*2.*2 → augmented pkgs entries heap !! r = heap !! r.
Proof.
  revert heap. induction entries as [|e entries IH]; intros heap Hr; simpl; [done|].
  unfold augmented in *. simpl. rewrite fmap_cons, fmap_cons, not_elem_of_cons in Hr.
  destruct Hr as [Hne Hr]. rewrite IH by done. by apply list_lookup_alter_ne.
Qed.

Lemma augmented_lookup pkgs entries heap p pkg r :
  NoDup entries.*2.*2 → (p, (pkg, r)) ∈ entries →
  augmented pkgs entries heap !! r
  = add_members (group_members pkgs pkg) <$> heap !! r.
Proof.
  revert heap. induction entries as [|e entries IH]; intros heap Hnd He.
  - by apply elem_of_nil in He.
  - rewrite !fmap_cons in Hnd. apply NoDup_cons in Hnd as [Hr Hnd].
    unfold augmented in *. simpl. apply elem_of_cons in He as [<-|He].
    + simpl in *. fold (augmented pkgs entries) in *.
      change (foldl _ ?h entries) with (augmented pkgs entries h).
      rewrite augmented_lookup_ne by done. apply list_lookup_alter_eq.
    + rewrite IH by done. rewrite list_lookup_alter_ne; [done|].
      intros Heq. apply Hr. rewrite Heq.
      apply (list_elem_of_fmap_2 snd) in He.
      apply (list_elem_of_fmap_2 snd) in He. done.
Qed.

(** ** The dictionary [pkgs] *)

Lemma existsb_key (key : string) (pkgs : PkgsDict) :
  existsb (λ e, String.eqb e.1 key) pkgs = true ↔ key ∈ pkgs.*1.
Proof.
  rewrite existsb_exists, list_elem_of_fmap. split.
  - intros (e & He & Hk). apply String.eqb_eq in Hk. exists e.
    split; [done|]. by apply list_elem_of_In.
  - intros (e & -> & He). exists e. split; [by apply list_elem_of_In|].
    apply String.eqb_refl.
Qed.

Lemma dict_set_keys key v (pkgs : PkgsDict) :
  (dict_set key v pkgs).*1
  = (if decide (key ∈ pkgs.*1) then pkgs.*1 else (pkgs.*1 ++ [key])%list).
Proof.
  unfold dict_set. case_decide as Hk.
  - apply existsb_key in Hk. rewrite Hk. clear Hk.
    induction pkgs as [|e pkgs IH]; [done|]. rewrite !fmap_cons, IH. f_equal.
    destruct (String.eqb_spec e.1 key); by subst.
  - destruct (existsb _ pkgs) eqn:He.
    + by apply existsb_key in He.
    + by rewrite fmap_app.
Qed.

Lemma elem_of_dict_set key v (pkgs : PkgsDict) e :
  e ∈ dict_set key v pkgs ↔ e = (key, v) ∨ (e ∈ pkgs ∧ e.1 ≠ key).
Proof.
  unfold dict_set. destruct (existsb _ pkgs) eqn:He.
  - apply existsb_key in He. rewrite list_elem_of_fmap. split.
    + intros (e' & -> & He'). destruct (String.eqb_spec e'.1 key); [by left|].
      by right.
    + intros [->|[He' Hne]].
      * apply list_elem_of_fmap in He as (e' & -> & He'). exists e'.
        by rewrite String.eqb_refl.
      * exists e. split; [|done]. by destruct (String.eqb_spec e.1 key).
  - rewrite elem_of_app, list_elem_of_singleton. split.
    + intros [He'| ->]; [|by left]. right. split; [done|].
      intros <-. assert (existsb (λ e0, e0.1 =? e.1) pkgs = true); [|congruence].
      apply existsb_key. by apply list_elem_of_fmap_2.
    + intros [->|[? ?]]; auto.
Qed.

Lemma pkgs_ok_dict_set g heap pkgs r d pkg :
  pkgs_ok g heap pkgs → heap !! r = Some d → cached_package g d = Some pkg →
  pkgs_ok g heap (dict_set (desc_path d) (pkg, r) pkgs).
Proof.
  intros [Hnd Hok] Hr Hc. split.
  - rewrite dict_set_keys. case_decide; [done|].
    apply NoDup_app. split_and!; [done| |apply NoDup_singleton].
    intros k Hk ->%list_elem_of_singleton. done.
  - intros p pkg' r' [[= -> -> ->]|[He _]]%elem_of_dict_set; eauto.
Qed.

Lemma batch_owner_cons heap r descs p :
  batch_owner heap (r :: descs) p =
  if decide (desc_path <$> heap !! r = Some p)
  then Some (default r (batch_owner heap descs p))
  else batch_owner heap descs p.
Proof.
  unfold batch_owner. rewrite filter_cons. case_decide; [|done].
  rewrite last_cons. by destruct (last _).
Qed.

Lemma collect_pkgs_elem g heap descs pkgs p pkg r :
  pkgs_ok g heap pkgs →
  (p, (pkg, r)) ∈ collect_pkgs g heap descs pkgs ↔
  (batch_owner heap descs p = Some r ∧
   ∃ d, heap !! r = Some d ∧ cached_package g d = Some pkg) ∨
  (batch_owner heap descs p = None ∧ (p, (pkg, r)) ∈ pkgs).
Proof.
  revert pkgs. induction descs as [|r0 descs IH]; intros pkgs Hok.
  - simpl. unfold batch_owner. simpl. split; [by right|].
    by intros [[? ?]|[_ ?]].
  - simpl. rewrite batch_owner_cons.
    destruct (heap !! r0) as [d0|] eqn:Hr0; simpl.
    2:{ by apply IH. }
    destruct (_cached_packages g !! desc_path d0) as [[[pkg0|] bt0]|] eqn:Hc0.
    + assert (cached_package g d0 = Some pkg0) as Hcp
        by (unfold cached_package; by rewrite Hc0).
      rewrite IH by (by eapply pkgs_ok_dict_set).
      rewrite elem_of_dict_set. simpl.
      case_decide as Hp.
      * injection Hp as <-.
        destruct (batch_owner heap descs (desc_path d0)) as [r1|]; simpl.
        -- intuition congruence.
        -- split.
           ++ intros [[? ?]|[_ [[= -> ->]|[_ ?]]]]; [done| |done].
              left. eauto.
           ++ intros [[[= <-] (d & Hd & Hcd)]|[? ?]]; [|done].
              right. split; [done|]. left. congruence.
      * assert (p ≠ desc_path d0) by congruence.
        destruct (batch_owner heap descs p); intuition congruence.
    + assert (cached_package g d0 = None) as Hcp
        by (unfold cached_package; by rewrite Hc0).
      rewrite IH by done. case_decide as Hp; [|done].
      injection Hp as <-.
      destruct (batch_owner heap descs (desc_path d0)) as [r1|] eqn:Hb; simpl.
      * done.
      * split.
        2:{ intros [[[= <-] (d & Hd & Hcd)]|[? ?]]; [|done]. congruence. }
        intros [[? ?]|[_ He]]; [done|].
        destruct Hok as [_ Hok]. apply Hok in He as (d & Hd & Hpd & Hcd).
        unfold cached_package in Hcd. rewrite Hpd, Hc0 in Hcd. done.
    + assert (cached_package g d0 = None) as Hcp
        by (unfold cached_package; by rewrite Hc0).
      rewrite IH by done. case_decide as Hp; [|done].
      injection Hp as <-.
      destruct (batch_owner heap descs (desc_path d0)) as [r1|] eqn:Hb; simpl.
      * done.
      * split.
        2:{ intros [[[= <-] (d & Hd & Hcd)]|[? ?]]; [|done]. congruence. }
        intros [[? ?]|[_ He]]; [done|].
        destruct Hok as [_ Hok]. apply Hok in He as (d & Hd & Hpd & Hcd).
        unfold cached_package in Hcd. rewrite Hpd, Hc0 in Hcd. done.
Qed.

Lemma pkgs_ok_nil g heap : pkgs_ok g heap [].
Proof.
  split; [constructor|]. intros p pkg r He. by apply elem_of_nil in He.
Qed.

Lemma pkgs_ok_collect g heap descs pkgs :
  pkgs_ok g heap pkgs → pkgs_ok g heap (collect_pkgs g heap descs pkgs).
Proof.
  revert pkgs. induction descs as [|r descs IH]; intros pkgs Hok; simpl; [done|].
  destruct (heap !! r) as [d|] eqn:Hr; [|by apply IH].
  destruct (_cached_packages g !! desc_path d) as [[[pkg|] bt]|] eqn:Hc;
    try by apply IH.
  apply IH. eapply pkgs_ok_dict_set; [done..|].
  unfold cached_package. by rewrite Hc.
Qed.

Lemma pkgs_ok_refs g heap pkgs : pkgs_ok g heap pkgs → NoDup pkgs.*2.*2.
Proof.
  intros [Hnd Hok]. induction pkgs as [|[p [pkg r]] pkgs IH]; [constructor|].
  rewrite !fmap_cons in *. apply NoDup_cons in Hnd as [Hp Hnd]. simpl in *.
  apply NoDup_cons. split.
  - intros Hr. apply list_elem_of_fmap in Hr as ([pkg' r'] & Hr & He).
    apply list_elem_of_fmap in He as ([p' e'] & He' & He). simpl in *. subst.
    destruct (Hok p pkg r') as (d & Hd & Hpd & _); [left|].
    destruct (Hok p' pkg' r') as (d' & Hd' & Hpd' & _); [by right|].
    apply Hp. apply list_elem_of_fmap. exists (p', (pkg', r')).
    split; [|done]. simpl. congruence.
  - apply IH; [done|]. intros p' pkg' r' He. apply Hok. by right.
Qed.

Lemma batch_owner_elem heap descs p r :
  batch_owner heap descs p = Some r →
  r ∈ descs ∧ desc_path <$> heap !! r = Some p.
Proof.
  unfold batch_owner. intros Hl.
  apply last_Some_elem_of, list_elem_of_filter in Hl. tauto.
Qed.

Lemma elem_of_member_names gd packages n :
  n ∈ member_names gd packages ↔
  ∃ pkg, pkg ∈ packages ∧ name pkg = n ∧ is_member_of (group_name gd) pkg = true.
Proof.
  unfold member_names. rewrite list_elem_of_fmap. split.
  - intros (pkg & -> & Hp). apply list_elem_of_filter in Hp as [? ?]. eauto.
  - intros (pkg & Hp & <- & Hm). exists pkg. split; [done|].
    by apply list_elem_of_filter.
Qed.

Lemma elem_of_group_members pkgs pkg n :
  n ∈ group_members pkgs pkg ↔
  ∃ gd, gd ∈ group_depends pkg ∧ group_condition_true gd ∧
        n ∈ member_names gd (packages_of pkgs).
Proof.
  unfold group_members. rewrite list_elem_of_In, in_concat. split.
  - intros (l & Hl & Hn). apply list_elem_of_In in Hl, Hn.
    apply list_elem_of_fmap in Hl as (gd & -> & Hgd).
    apply list_elem_of_filter in Hgd as [? ?]. eauto.
  - intros (gd & Hgd & Ht & Hn). eexists.
    split; [|apply list_elem_of_In; exact Hn].
    apply list_elem_of_In, list_elem_of_fmap. exists gd. split; [done|].
    by apply list_elem_of_filter.
Qed.

Lemma set_add_dom dd (s : DepSet) : dom (set_add dd s) = {[dd_name dd]} ∪ dom s.
Proof.
  unfold set_add. destruct (s !! dd_name dd) eqn:Hs.
  - apply (elem_of_dom_2 s) in Hs. apply set_eq. intros n.
    rewrite elem_of_union, elem_of_singleton. split; [by right|].
    by intros [->|?].
  - by rewrite dom_insert_L.
Qed.

Lemma add_members_frame names d :
  desc_path (add_members names d) = desc_path d ∧
  desc_type (add_members names d) = desc_type d ∧
  desc_name (add_members names d) = desc_name d ∧
  desc_metadata (add_members names d) = desc_metadata d ∧
  desc_deps Test (add_members names d) = desc_deps Test d.
Proof.
  unfold add_members. revert d.
  induction names as [|n names IH]; intros d; [done|]. cbn [foldl].
  destruct (IH (add_dependency Run (member_descriptor n)
                  (add_dependency Build (member_descriptor n) d)))
    as (-> & -> & -> & -> & ->). done.
Qed.

Lemma add_members_dom names d c :
  c ≠ Test →
  dom (desc_deps c (add_members names d)) = dom (desc_deps c d) ∪ list_to_set names.
Proof.
  intros Hc. unfold add_members. revert d.
  induction names as [|n names IH]; intros d; simpl.
  - by rewrite union_empty_r_L.
  - rewrite IH. unfold desc_deps.
    destruct c; [| |done]; simpl; rewrite set_add_dom; simpl;
      apply set_eq; intros x; rewrite !elem_of_union; tauto.
Qed.

Lemma add_members_grow names d c :
  desc_deps c d ⊆ desc_deps c (add_members names d).
Proof.
  unfold add_members. revert d.
  induction names as [|n names IH]; intros d; simpl; [done|].
  etrans; [|apply IH]. unfold desc_deps.
  destruct c; simpl; try done; apply set_add_subseteq.
Qed.

Lemma add_members_lookup names d c n :
  c ≠ Test →
  desc_deps c (add_members names d) !! n =
  match desc_deps c d !! n with
  | Some md => Some md
  | None => if decide (n ∈ names) then Some ∅ else None
  end.
Proof.
  intros Hc. unfold add_members. revert d.
  induction names as [|m names IH]; intros d; cbn [foldl].
  - destruct (desc_deps c d !! n); [done|].
    rewrite decide_False; [done|]. apply not_elem_of_nil.
  - rewrite IH.
    assert (desc_deps c (add_dependency Run (member_descriptor m)
                           (add_dependency Build (member_descriptor m) d))
            = set_add (member_descriptor m) (desc_deps c d)) as ->
      by (by destruct c).
    rewrite set_add_lookup. simpl.
    destruct (desc_deps c d !! n); [done|].
    destruct (decide (m = n)) as [->|Hne].
    + rewrite decide_True; [done|left].
    + destruct (decide (n ∈ names)) as [Hin|Hin].
      * rewrite decide_True; [done|by right].
      * rewrite decide_False; [done|].
        intros [?|?]%elem_of_cons; [congruence|done].
Qed.

Lemma collect_pkgs_entry g heap descs p pkg r :
  (p, (pkg, r)) ∈ collect_pkgs g heap descs [] ↔
  batch_owner heap descs p = Some r ∧
  ∃ d, heap !! r = Some d ∧ cached_package g d = Some pkg.
Proof.
  rewrite collect_pkgs_elem by apply pkgs_ok_nil. split; [|by left].
  intros [?|[_ He]]; [done|]. by apply elem_of_nil in He.
Qed.

Lemma cached_package_path g d d' :
  desc_path d = desc_path d' → cached_package g d = cached_package g d'.
Proof. unfold cached_package. by intros ->. Qed.

Lemma batch_owner_is_Some heap descs r d :
  r ∈ descs → heap !! r = Some d →
  is_Some (batch_owner heap descs (desc_path d)).
Proof.
  intros Hr Hd. unfold batch_owner.
  assert (r ∈ filter (λ r', desc_path <$> heap !! r' = Some (desc_path d)) descs)
    as Hf by (apply list_elem_of_filter; by rewrite Hd).
  destruct (filter _ descs) as [|r0 l] using rev_ind;
    [by apply elem_of_nil in Hf|].
  rewrite last_snoc. eauto.
Qed.

Lemma batch_owner_unique heap descs p r :
  NoDup (batch_paths heap descs) →
  batch_owner heap descs p = Some r ↔
  r ∈ descs ∧ desc_path <$> heap !! r = Some p.
Proof.
  intros Hnd. split; [apply batch_owner_elem|]. intros [Hr Hp].
  unfold batch_owner, batch_paths in *.
  induction descs as [|r0 descs IH]; [by apply elem_of_nil in Hr|].
  rewrite fmap_cons in Hnd. apply NoDup_cons in Hnd as [Hr0 Hnd].
  rewrite filter_cons. apply elem_of_cons in Hr as [->|Hr].
  - rewrite decide_True by done. rewrite last_cons.
    destruct (last _) as [r1|] eqn:Hl; [|done].
    apply last_Some_elem_of, list_elem_of_filter in Hl as [Hp1 Hr1].
    exfalso. apply Hr0. apply list_elem_of_fmap. exists r1.
    split; [congruence|done].
  - case_decide as Hp0.
    + exfalso. apply Hr0. apply list_elem_of_fmap. exists r.
      split; [congruence|done].
    + by apply IH.
Qed.

(** The packages of the dictionary are the cached packages of the batch. *)
Lemma batch_packages g heap descs pkg :
  pkg ∈ packages_of (collect_pkgs g heap descs []) ↔
  ∃ r, r ∈ descs ∧ heap !! r ≫= cached_package g = Some pkg.
Proof.
  unfold packages_of. rewrite list_elem_of_fmap. split.
  - intros ([p [pkg' r]] & -> & He). simpl.
    apply collect_pkgs_entry in He as (Hb & d & Hd & Hc).
    apply batch_owner_elem in Hb as [Hr _]. exists r. split; [done|].
    by rewrite Hd.
  - intros (r & Hr & Hc). destruct (heap !! r) as [d|] eqn:Hd; [|done].
    simpl in Hc.
    destruct (batch_owner_is_Some heap descs r d Hr Hd) as [r' Hb].
    apply batch_owner_elem in Hb as Hr'. destruct Hr' as [_ Hp].
    destruct (heap !! r') as [d'|] eqn:Hd'; [|done]. injection Hp as Hp.
    exists (desc_path d, (pkg, r')). split; [done|].
    apply collect_pkgs_entry. split; [done|]. exists d'. split; [done|].
    by rewrite (cached_package_path g d' d).
Qed.

Lemma batch_packages_forall g heap descs (P : Package → Prop) :
  (∀ pkg, pkg ∈ packages_of (collect_pkgs g heap descs []) → P pkg) ↔
  Forall (λ r, match heap !! r ≫= cached_package g with
               | Some pkg => P pkg
               | None => True
               end) descs.
Proof.
  rewrite Forall_forall. split.
  - intros Hall r Hr. destruct (heap !! r ≫= cached_package g) as [pkg|] eqn:Hc;
      [|done].
    apply Hall, batch_packages. eauto.
  - intros Hall pkg (r & Hr & Hc)%batch_packages.
    specialize (Hall r Hr). by rewrite Hc in Hall.
Qed.

Lemma batch_packages_exists g heap descs (P : Package → Prop) :
  (∃ pkg, pkg ∈ packages_of (collect_pkgs g heap descs []) ∧ P pkg) ↔
  Exists (λ r, match heap !! r ≫= cached_package g with
               | Some pkg => P pkg
               | None => False
               end) descs.
Proof.
  rewrite Exists_exists. split.
  - intros (pkg & (r & Hr & Hc)%batch_packages & HP). exists r.
    split; [done|]. by rewrite Hc.
  - intros (r & Hr & HP).
    destruct (heap !! r ≫= cached_package g) as [pkg|] eqn:Hc; [|done].
    exists pkg. split; [|done]. apply batch_packages. eauto.
Qed.

Lemma memberships_evaluated_spec packages :
  memberships_evaluated packages = true ↔
  ∀ pkg, pkg ∈ packages →
         Forall (λ m, group_evaluated_condition m ≠ None) (member_of_groups pkg).
Proof.
  unfold memberships_evaluated. rewrite forallb_forall.
  apply forall_proper. intros pkg. rewrite <- list_elem_of_In.
  apply forall_proper. intros _.
  rewrite forallb_forall, Forall_forall.
  apply forall_proper. intros m. rewrite <- list_elem_of_In.
  apply forall_proper. intros _. by rewrite bool_decide_eq_true.
Qed.

Lemma memberships_iff g heap descs :
  memberships_evaluated (packages_of (collect_pkgs g heap descs [])) = true ↔
  membership_conditions_evaluated g heap descs.
Proof.
  rewrite memberships_evaluated_spec. apply batch_packages_forall.
Qed.

Lemma entries_ok_spec pkgs :
  entries_ok pkgs pkgs ↔
  (∀ pkg, pkg ∈ packages_of pkgs →
          Forall (λ gd, group_evaluated_condition gd ≠ None) (group_depends pkg)) ∧
  ((∃ pkg, pkg ∈ packages_of pkgs ∧
           Exists group_condition_true (group_depends pkg)) →
   memberships_evaluated (packages_of pkgs) = true).
Proof.
  unfold entries_ok, group_ok, packages_of.
  rewrite Forall_forall. setoid_rewrite Forall_forall.
  setoid_rewrite Exists_exists. setoid_rewrite list_elem_of_fmap. split.
  - intros Hall. split.
    + intros pkg (e & -> & He) gd Hgd. by apply (Hall e He gd Hgd).
    + intros (pkg & (e & -> & He) & gd & Hgd & Ht).
      by apply (Hall e He gd Hgd).
  - intros [Hc Hm] e He gd Hgd. split; [by apply (Hc e.2.1); eauto|].
    intros Ht. apply Hm. exists e.2.1. split; eauto.
Qed.

Lemma entries_ok_iff g heap descs :
  entries_ok (collect_pkgs g heap descs []) (collect_pkgs g heap descs []) ↔
  group_conditions_evaluated g heap descs ∧
  (uses_groups g heap descs → membership_conditions_evaluated g heap descs).
Proof.
  rewrite entries_ok_spec, memberships_iff.
  unfold group_conditions_evaluated, uses_groups.
  by rewrite batch_packages_forall, batch_packages_exists.
Qed.

Lemma augment_run g descs heap :
  entries_ok (collect_pkgs g heap descs []) (collect_pkgs g heap descs []) →
  augment_packages g descs heap
  = (Returned tt,
     augmented (collect_pkgs g heap descs []) (collect_pkgs g heap descs []) heap).
Proof. intros Hok. rewrite augment_unfold. by apply entries_loop_run. Qed.

Lemma augment_outcome g descs heap :
  (augment_packages g descs heap).1 = Returned tt ∧
    entries_ok (collect_pkgs g heap descs []) (collect_pkgs g heap descs []) ∨
  (augment_packages g descs heap).1 = Raised AssertionError ∧
    ¬ entries_ok (collect_pkgs g heap descs []) (collect_pkgs g heap descs []).
Proof. rewrite augment_unfold. apply entries_loop_outcome. Qed.

Lemma augment_returned g descs heap heap1 :
  augment_packages g descs heap = (Returned tt, heap1) →
  entries_ok (collect_pkgs g heap descs []) (collect_pkgs g heap descs []) ∧
  heap1 = augmented (collect_pkgs g heap descs [])
                    (collect_pkgs g heap descs []) heap.
Proof.
  intros Hrun.
  destruct (augment_outcome g descs heap) as [[_ Hok]|[Ho _]].
  - split; [done|]. rewrite (augment_run _ _ _ Hok) in Hrun. congruence.
  - rewrite Hrun in Ho. done.
Qed.

(** What the second loop, run to its end, has done to the heap: the
    descriptor the dictionary holds for a path has gained the members of
    the true-conditioned group dependencies of its package, and every
    other descriptor is what it was. *)
Lemma augmented_effect g heap descs :
  let pkgs := collect_pkgs g heap descs [] in
  let heap' := augmented pkgs pkgs heap in
  (∀ r d pkg,
     heap !! r = Some d → cached_package g d = Some pkg →
     batch_owner heap descs (desc_path d) = Some r →
     heap' !! r = Some (add_members (group_members pkgs pkg) d)) ∧
  (∀ r d,
     heap !! r = Some d →
     cached_package g d = None ∨
     batch_owner heap descs (desc_path d) ≠ Some r →
     heap' !! r = Some d).
Proof.
  intros pkgs heap'.
  assert (pkgs_ok g heap pkgs) as Hok by apply pkgs_ok_collect, pkgs_ok_nil.
  split.
  - intros r d pkg Hd Hc Hb.
    assert ((desc_path d, (pkg, r)) ∈ pkgs) as He
      by (apply collect_pkgs_entry; eauto).
    unfold heap'.
    rewrite (augmented_lookup _ _ _ _ _ _ (pkgs_ok_refs _ _ _ Hok) He).
    by rewrite Hd.
  - intros r d Hd Hno. unfold heap'. rewrite augmented_lookup_ne; [done|].
    intros Hr. apply list_elem_of_fmap in Hr as ([pkg r'] & Hr & He).
    apply list_elem_of_fmap in He as ([p e'] & He' & He). simpl in *. subst.
    apply collect_pkgs_entry in He as (Hb & d' & Hd' & Hc).
    assert (d' = d) as -> by congruence.
    apply batch_owner_elem in Hb as Hp. destruct Hp as [_ Hp].
    rewrite Hd in Hp. injection Hp as <-.
    destruct Hno; congruence.
Qed.

Lemma group_members_nil pkgs pkg :
  (∀ gd, gd ∈ group_depends pkg → group_condition_true gd →
         member_names gd (packages_of pkgs) = []) →
  group_members pkgs pkg = [].
Proof.
  intros Hnone. unfold group_members.
  induction (group_depends pkg) as [|gd gds IH]; [done|].
  rewrite filter_cons. case_decide.
  - simpl. rewrite Hnone by (done || left). apply IH.
    intros gd' Hgd'. apply Hnone. by right.
  - apply IH. intros gd' Hgd'. apply Hnone. by right.
Qed.

(** C2.  A descriptor is keyed by its path, so the paths of a batch are
    pairwise distinct.  For such a batch: where the group conditions and
    the membership conditions of its packages are evaluated,
    [augment_packages] returns normally.  Where it returns, every
    descriptor of the batch whose path has a cached package holds, in its
    build and in its run set, every member name resolved against the batch
    mapping for a true-conditioned group dependency of the package, and
    nothing else is added: a name is in the build or the run set afterwards
    exactly if it was there before or is such a member; the sets keep what
    they held, a new name comes without metadata, the test set is the
    same, and if no member resolves the descriptor is what it was.  A
    descriptor outside the batch, or without a cached package, is what it
    was.  The resolved members are exactly the names of the cached
    packages of the batch that belong to the group, so a package outside
    the batch is never one. *)
Theorem augment_adds_group_members g heap descs :
  NoDup (batch_paths heap descs) →
  (group_conditions_evaluated g heap descs →
   membership_conditions_evaluated g heap descs →
   (augment_packages g descs heap).1 = Returned tt) ∧
  (∀ heap',
     augment_packages g descs heap = (Returned tt, heap') →
     (∀ r d pkg,
        r ∈ descs → heap !! r = Some d → cached_package g d = Some pkg →
        ∃ d',
          heap' !! r = Some d' ∧
          (∀ gd n,
             gd ∈ group_depends pkg → group_condition_true gd →
             n ∈ member_names gd (packages_of (collect_pkgs g heap descs [])) →
             n ∈ dom (desc_deps Build d') ∧ n ∈ dom (desc_deps Run d')) ∧
          (∀ c n, c ≠ Test →
             (n ∈ dom (desc_deps c d') ↔
              n ∈ dom (desc_deps c d) ∨
              ∃ gd, gd ∈ group_depends pkg ∧ group_condition_true gd ∧
                    n ∈ member_names gd
                          (packages_of (collect_pkgs g heap descs [])))) ∧
          (∀ c, desc_deps c d ⊆ desc_deps c d') ∧
          desc_deps Test d' = desc_deps Test d ∧
          (∀ c n, c ≠ Test → desc_deps c d !! n = None →
                  n ∈ dom (desc_deps c d') → desc_deps c d' !! n = Some ∅) ∧
          ((∀ gd, gd ∈ group_depends pkg → group_condition_true gd →
                  member_names gd
                    (packages_of (collect_pkgs g heap descs [])) = []) →
           d' = d)) ∧
     (∀ r d,
        heap !! r = Some d →
        r ∉ descs ∨ cached_package g d = None →
        heap' !! r = Some d)) ∧
  (∀ gd n,
     n ∈ member_names gd (packages_of (collect_pkgs g heap descs [])) ↔
     ∃ r d pkg,
       r ∈ descs ∧ heap !! r = Some d ∧ cached_package g d = Some pkg ∧
       name pkg = n ∧ is_member_of (group_name gd) pkg = true).
Proof.
  intros Hnd. set (pkgs := collect_pkgs g heap descs []).
  split_and!.
  - intros Hev Hmem.
    rewrite augment_run; [done|]. apply entries_ok_iff. by split.
  - intros heap' [_ ->]%augment_returned. fold pkgs.
    destruct (augmented_effect g heap descs) as [Hin Hout]. fold pkgs in Hin, Hout.
    split.
    + intros r d pkg Hr Hd Hc.
      assert (batch_owner heap descs (desc_path d) = Some r) as Hb
        by (apply batch_owner_unique; [done|]; by rewrite Hd).
      exists (add_members (group_members pkgs pkg) d).
      assert (∀ c n, c ≠ Test →
                n ∈ dom (desc_deps c (add_members (group_members pkgs pkg) d)) ↔
                n ∈ dom (desc_deps c d) ∨
                ∃ gd, gd ∈ group_depends pkg ∧ group_condition_true gd ∧
                      n ∈ member_names gd (packages_of pkgs)) as Hdom.
      { intros c n Hc'. rewrite add_members_dom by done.
        by rewrite elem_of_union, elem_of_list_to_set, elem_of_group_members. }
      split_and!.
      * by apply Hin.
      * intros gd n Hgd Ht Hn. split; apply Hdom; try done; right; eauto.
      * done.
      * intros c. apply add_members_grow.
      * apply add_members_frame.
      * intros c n Hc' Hn [md Hmd]%elem_of_dom.
        rewrite add_members_lookup, Hn in Hmd |- * by done.
        by case_decide.
      * intros Hnone. by rewrite group_members_nil.
    + intros r d Hd Hno. apply Hout; [done|].
      destruct Hno as [Hr|Hc]; [right|by left].
      rewrite batch_owner_unique by done. tauto.
  - intros gd n. rewrite elem_of_member_names. unfold pkgs.
    setoid_rewrite batch_packages. split.
    + intros (pkg & (r & Hr & Hc) & Hn & Hm).
      destruct (heap !! r) as [d|] eqn:Hd; [|done]. simpl in Hc.
      exists r, d, pkg. done.
    + intros (r & d & pkg & Hr & Hd & Hc & Hn & Hm). exists pkg.
      split; [|done]. exists r. split; [done|]. by rewrite Hd.
Qed.

(** ** [augment_packages] on the sample workspace *)

Lemma augment_adds_group_members_witness :
  NoDup (batch_paths robot_lidar_scan.1 [0; 1]) ∧
  ∃ heap' robot,
    augment_packages robot_lidar_scan.2 [0; 1] robot_lidar_scan.1
      = (Returned tt, heap') ∧
    heap' !! 0 = Some robot ∧
    "lidar" ∈ dom (desc_deps Build robot) ∧
    "lidar" ∈ dom (desc_deps Run robot) ∧
    heap' !! 1 = robot_lidar_scan.1 !! 1.
Proof.
  assert (NoDup (batch_paths robot_lidar_scan.1 [0; 1])) as Hnd.
  { vm_compute. repeat constructor; rewrite ?elem_of_cons, ?elem_of_nil;
      intuition discriminate. }
  split; [exact Hnd|].
  destruct (augment_adds_group_members robot_lidar_scan.2 robot_lidar_scan.1
              [0; 1] Hnd) as (Hret & Heff & _).
  destruct (augment_packages robot_lidar_scan.2 [0; 1] robot_lidar_scan.1)
    as [o heap'] eqn:Hrun.
  assert (o = Returned tt) as ->.
  { apply Hret; repeat constructor; vm_compute; repeat constructor; discriminate. }
  destruct (Heff heap' eq_refl) as [Hin _].
  destruct (Hin 0 (populated group_package "ament_cmake"
                     (fresh_descriptor "/ws/robot")) group_package)
    as (robot & Hrobot & Hadd & _);
    [rewrite elem_of_cons; by left|vm_compute; reflexivity..|].
  destruct (Hin 1 (populated member_package "ament_cmake"
                     (fresh_descriptor "/ws/lidar")) member_package)
    as (lidar & Hlidar & _ & _ & _ & _ & _ & Hsame);
    [rewrite !elem_of_cons; auto|vm_compute; reflexivity..|].
  destruct (Hadd {| group_name := "drivers";
                    group_evaluated_condition := Some true |} "lidar")
    as [Hb Hr]; [left|reflexivity|vm_compute; left|].
  exists heap', robot. split_and!; [done..|].
  rewrite Hlidar, Hsame; [vm_compute; reflexivity|].
  intros gd Hgd. by apply elem_of_nil in Hgd.
Defined.

(** The member is invisible outside the batch: with the descriptor of
    [/ws/lidar] left out, that of [/ws/robot] is not changed. *)
Example augment_scoped_to_batch :
  augment_packages robot_lidar_scan.2 [0] robot_lidar_scan.1
  = (Returned tt, robot_lidar_scan.1).
Proof. vm_compute. reflexivity. Qed.

(** Where two descriptors of a batch share a path, the dictionary keeps
    the one listed last for the package, and it alone gets the member. *)
Example augment_skips_earlier_twin :
  ∃ heap' first second,
    augment_packages twin_robot_scan.2 [0; 1; 2] twin_robot_scan.1
      = (Returned tt, heap') ∧
    twin_robot_scan.1 !! 0 ≫= cached_package twin_robot_scan.2
      = Some group_package ∧
    member_names
      {| group_name := "drivers"; group_evaluated_condition := Some true |}
      (packages_of (collect_pkgs twin_robot_scan.2 twin_robot_scan.1 [0; 1; 2] []))
      = ["lidar"] ∧
    heap' !! 0 = Some first ∧ heap' !! 1 = Some second ∧
    desc_deps Build first = ∅ ∧ desc_deps Run first = ∅ ∧
    dom (desc_deps Build second) = {["lidar"]} ∧
    dom (desc_deps Run second) = {["lidar"]}.
Proof.
  eexists _, _, _. split_and!; vm_compute; reflexivity.
Qed.

(** ** The dependency sets only grow *)

#[global] Instance deps_grow_preorder : PreOrder deps_grow.
Proof.
  split.
  - intros d. by split.
  - intros d1 d2 d3 [Hp Hs] [Hp' Hs']. split; [congruence|].
    intros c. etrans; [apply Hs|apply Hs'].
Qed.

#[global] Instance heap_grows_preorder : PreOrder heap_grows.
Proof.
  split.
  - intros heap r d Hd. by exists d.
  - intros h1 h2 h3 H12 H23 r d Hd.
    destruct (H12 r d Hd) as (d2 & Hd2 & Hg2).
    destruct (H23 r d2 Hd2) as (d3 & Hd3 & Hg3).
    exists d3. split; [done|]. by etrans.
Qed.

Lemma adds_from_deps_grow pkg d d' : adds_from pkg d d' → deps_grow d d'.
Proof. intros (Hp & _ & _ & Hs & _). by split. Qed.

Lemma identify_deps_grow w d g : deps_grow d (identify w (d, g)).2.1.
Proof.
  destruct (identify_effect w d g) as [->|(pkg & bt & g1 & _ & Ha)].
  - reflexivity.
  - by eapply adds_from_deps_grow.
Qed.

Lemma add_dependency_deps_grow c dd d : deps_grow d (add_dependency c dd d).
Proof.
  split; [done|]. intros c'. unfold desc_deps.
  destruct c, c'; simpl; try done; apply set_add_subseteq.
Qed.

Lemma alter_heap_grows f r (heap : Heap) :
  (∀ d, deps_grow d (f d)) → heap_grows heap (alter f r heap).
Proof.
  intros Hf r' d Hd. rewrite list_lookup_alter. case_decide; subst.
  - rewrite Hd. simpl. eauto.
  - by exists d.
Qed.

Lemma insert_heap_grows r d d' (heap : Heap) :
  heap !! r = Some d → deps_grow d d' → heap_grows heap (<[r := d']> heap).
Proof.
  intros Hr Hg r' d0 Hd0. destruct (decide (r = r')) as [<-|Hne].
  - exists d'. split; [|congruence].
    apply list_lookup_insert_eq. by eapply lookup_lt_Some.
  - exists d0. split; [|reflexivity]. by rewrite list_lookup_insert_ne.
Qed.

Lemma augment_packages_steady g descs :
  steady heap_grows (augment_packages g descs).
Proof.
  unfold augment_packages.
  apply steady_bind; [apply _|apply steady_get, _|]. intros heap.
  apply steady_for_each; [apply _|]. intros [p [pkg r]] _.
  apply steady_for_each; [apply _|]. intros gd _.
  destruct (group_evaluated_condition gd) as [[]|];
    [|apply steady_ret, _|apply steady_raise, _].
  apply steady_bind; [apply _|apply steady_lift, _|]. intros members.
  apply steady_for_each; [apply _|]. intros n _. unfold add_member.
  apply steady_bind; [apply _| |intros _];
    apply steady_modify; intros h; apply alter_heap_grows;
    intros d; apply add_dependency_deps_grow.
Qed.

Lemma do_call_heap_grows w s c :
  heap_grows (sys_heap s) (sys_heap (do_call w s c)).
Proof.
  destruct c as [r|descs]; simpl.
  - destruct (sys_heap s !! r) as [d|] eqn:Hr; [|reflexivity].
    pose proof (identify_deps_grow w d (sys_globals s)) as Hg.
    destruct (identify w (d, sys_globals s)) as [o [d' g']]. simpl in *.
    by eapply insert_heap_grows.
  - apply augment_packages_steady.
Qed.

Lemma do_calls_heap_grows w s calls :
  heap_grows (sys_heap s) (sys_heap (do_calls w s calls)).
Proof.
  revert s. induction calls as [|c calls IH]; intros s; simpl; [reflexivity|].
  etrans; [apply (do_call_heap_grows w s c)|apply IH].
Qed.

(** C10.  Through every sequence of [identify] and [augment_packages]
    calls, returning or raising, every dependency a descriptor holds in one
    of its three sets, with its metadata, is still in that set, with that
    metadata. *)
Theorem dependency_sets_only_grow w s calls r d c n md :
  sys_heap s !! r = Some d →
  desc_deps c d !! n = Some md →
  ∃ d', sys_heap (do_calls w s calls) !! r = Some d' ∧
        desc_deps c d' !! n = Some md.
Proof.
  intros Hd Hn.
  destruct (do_calls_heap_grows w s calls r d Hd) as (d' & Hd' & _ & Hs).
  exists d'. split; [done|].
  specialize (Hs c). rewrite map_subseteq_spec in Hs. by apply Hs.
Qed.

Lemma dependency_sets_only_grow_witness :
  desc_deps Build pinned_robot !! "lidar" = Some {["version_gte" := "2.0"]} ∧
  (augment_packages
     (do_calls demo_world pinned_system [CallIdentify 0; CallIdentify 1]).(sys_globals)
     [0; 1]
     (do_calls demo_world pinned_system [CallIdentify 0; CallIdentify 1]).(sys_heap)).1
    = Returned tt ∧
  ∃ d', sys_heap (do_calls demo_world pinned_system
                    [CallIdentify 0; CallIdentify 1; CallAugment [0; 1]]) !! 0
          = Some d' ∧
        desc_deps Build d' !! "lidar" = Some {["version_gte" := "2.0"]}.
Proof.
  split; [reflexivity|]. split; [vm_compute; reflexivity|].
  apply (dependency_sets_only_grow demo_world pinned_system
           [CallIdentify 0; CallIdentify 1; CallAugment [0; 1]]
           0 pinned_robot Build "lidar");
    reflexivity.
Defined.

(** ** The manifest cache over several lookups *)

(** A lookup that returns leaves its answer in the cache. *)
Lemma lookup_stores w path g v g1 :
  get_package_with_build_type w path g = (Returned v, g1) →
  _cached_packages g1 !! path = Some v.
Proof.
  destruct (_cached_packages g !! path) as [v0|] eqn:Hc.
  - rewrite (lookup_hit _ _ _ _ Hc). by intros [= <- <-].
  - rewrite (lookup_miss _ _ _ Hc). destruct (resolve w path); [|done].
    intros [= <- <-]. simpl. apply lookup_insert_eq.
Qed.

(** After a lookup that returned, every further lookup of the path returns
    the same pair and calls neither the loader nor the classifier. *)
Lemma lookup_again w path g v g1 :
  get_package_with_build_type w path g = (Returned v, g1) →
  get_package_with_build_type w path g1 = (Returned v, g1).
Proof. intros Hl. eapply lookup_hit, lookup_stores, Hl. Qed.

(** C3 fails on a manifest with two build types.  The handler of
    [_get_build_type] raises [KeyError] while it formats its warning, so
    the lookup stores nothing; [identify] on a second descriptor for the
    same path calls the loader and the classifier again, and raises
    again. *)
Theorem ambiguous_build_type_not_cached :
  let first := identify demo_world
                 (fresh_descriptor "/ws/ambiguous", initial_globals) in
  let second := identify demo_world
                  (fresh_descriptor "/ws/ambiguous", first.2.2) in
  first.1 = Raised (KeyError "path") ∧
  _cached_packages first.2.2 !! "/ws/ambiguous" = None ∧
  second.1 = Raised (KeyError "path") ∧
  events second.2.2 =
    [LoaderCall "/ws/ambiguous"; ClassifierCall "ambiguous";
     LoaderCall "/ws/ambiguous"; ClassifierCall "ambiguous"] ∧
  count_loader_calls "/ws/ambiguous" (events second.2.2) = 2.
Proof. split_and!; vm_compute; reflexivity. Qed.


(** * Further properties *)

(** ** More on what [identify] leaves alone *)

#[global] Instance logs_only_preorder : PreOrder logs_only.
Proof.
  split.
  - intros g. split; [done|]. exists []. by rewrite app_nil_r.
  - intros g1 g2 g3 [Hc (es & He & Hes)] [Hc' (es' & He' & Hes')].
    split; [congruence|]. exists (es ++ es')%list. split.
    + by rewrite He', He, app_assoc.
    + by apply Forall_app.
Qed.

#[global] Instance type_kept_or_set_preorder : PreOrder type_kept_or_set.
Proof.
  split.
  - intros d. by left.
  - intros d1 d2 d3 H12 [H23|[bt H23]]; [|right; eauto].
    destruct H12 as [H12|[bt H12]]; [left|right; exists bt]; congruence.
Qed.

#[global] Instance on_globals_preorder R `{!PreOrder R} : PreOrder (on_globals R).
Proof.
  split.
  - intros s. unfold on_globals. reflexivity.
  - intros s1 s2 s3. unfold on_globals. intros. by etrans.
Qed.

Section IdentifyFrames.
Variable w : World.

(** [populate] keeps every relation on descriptors that its updates
    keep. *)
Lemma populate_steady_for (R : relation PackageDescriptor) `{!PreOrder R}
    pkg build_type :
  (∀ d, R d (set_type ("ros." ++ build_type) d)) →
  (∀ d, R d (set_name (name pkg) d)) →
  (∀ k v d, R d (set_metadata k v d)) →
  (∀ c dd d, R d (add_dependency c dd d)) →
  steady (on_desc R) (populate w pkg build_type).
Proof.
  intros Htype Hname Hmeta Hdep.
  assert (∀ f, (∀ d, R d (f d)) → steady (on_desc R) (update_desc f)) as Hupd.
  { intros f Hf. apply steady_modify. intros s. apply Hf. }
  assert (∀ c l, steady (on_desc R) (add_depends c l)) as Hloop.
  { intros c l. apply steady_for_each; [apply _|]. intros d _.
    destruct (dep_evaluated_condition d) as [[]|]; try steady_step.
    by apply Hupd. }
  unfold populate.
  apply steady_bind; [apply _|steady_step|]. intros s.
  apply steady_bind; [apply _| |intros _].
  { destruct (String.eqb build_type "ament_python"); [|steady_step].
    destruct (negb _); [|steady_step].
    apply steady_bind; [apply _|steady_step|]. intros _. steady_step. }
  apply steady_bind; [apply _|by apply Hupd|intros _].
  apply steady_bind; [apply _| |intros _].
  { apply steady_bind; [apply _|steady_step|]. intros s'.
    destruct (desc_name s'.1); [steady_step|by apply Hupd]. }
  apply steady_bind; [apply _|by apply Hupd|intros _].
  do 3 (apply steady_bind; [apply _|by apply Hloop|intros _]).
  destruct (String.eqb build_type "ament_python"); [|steady_step].
  by apply Hupd.
Qed.

(** The globals: [populate] writes the log only. *)
Lemma populate_logs_only pkg build_type :
  steady (on_globals logs_only) (populate w pkg build_type).
Proof.
  assert (∀ f, steady (on_globals logs_only) (update_desc f)) as Hupd.
  { intros f. apply steady_modify. intros s. unfold on_globals. reflexivity. }
  assert (∀ c l, steady (on_globals logs_only) (add_depends c l)) as Hloop.
  { intros c l. apply steady_for_each; [apply _|]. intros d _.
    destruct (dep_evaluated_condition d) as [[]|];
      [apply Hupd|apply steady_ret, _|apply steady_raise, _]. }
  unfold populate.
  apply steady_bind; [apply _|apply steady_get, _|]. intros s.
  apply steady_bind; [apply _| |intros _].
  { destruct (String.eqb build_type "ament_python"); [|apply steady_ret, _].
    destruct (negb _); [|apply steady_ret, _].
    apply steady_bind; [apply _| |intros _; apply steady_raise, _].
    intros s0. unfold on_globals, on_snd, emit, modify. simpl.
    split; [done|]. eexists. split; [done|].
    repeat constructor. eauto. }
  apply steady_bind; [apply _|apply Hupd|intros _].
  apply steady_bind; [apply _| |intros _].
  { apply steady_bind; [apply _|apply steady_get, _|]. intros s'.
    destruct (desc_name s'.1); [apply steady_ret, _|apply Hupd]. }
  apply steady_bind; [apply _|apply Hupd|intros _].
  do 3 (apply steady_bind; [apply _|apply Hloop|intros _]).
  destruct (String.eqb build_type "ament_python"); [|apply steady_ret, _].
  apply Hupd.
Qed.

(** The globals after [identify]: those before, or those after the
    lookup, with more in the log at most. *)
Lemma identify_globals d g :
  (identify w (d, g)).2.2 = g ∨
  logs_only (get_package_with_build_type w (desc_path d) g).2
            (identify w (d, g)).2.2.
Proof.
  rewrite identify_run.
  case_bool_decide; [by left|].
  destruct (path_exists w (path_join (desc_path d) "CATKIN_IGNORE")); [by left|].
  destruct (path_exists w (path_join (desc_path d) "AMENT_IGNORE")); [by left|].
  right.
  destruct (get_package_with_build_type w (desc_path d) g)
    as [[[pkg build_type]|e] g1]; [|reflexivity].
  destruct (wet_package pkg build_type) as [[pkg' bt]|]; [|reflexivity].
  apply (populate_logs_only pkg' bt (d, g1)).
Qed.
End IdentifyFrames.

#[global] Instance globals_grow_preorder : PreOrder globals_grow.
Proof.
  split.
  - intros g. by split.
  - intros g1 g2 g3 [Hc He] [Hc' He']. split; by etrans.
Qed.

Lemma logs_only_grow g g' : logs_only g g' → globals_grow g g'.
Proof.
  intros [Hc (es & He & _)]. split; [by rewrite Hc|].
  rewrite He. by apply prefix_app_r.
Qed.



Section CacheDiscipline.
Variable w : World.


Lemma lookup_globals_grow path g :
  globals_grow g (get_package_with_build_type w path g).2 ∧
  ∀ path', path' ≠ path →
    _cached_packages (get_package_with_build_type w path g).2 !! path'
    = _cached_packages g !! path'.
Proof.
  destruct (_cached_packages g !! path) as [v|] eqn:Hc.
  - by rewrite (lookup_hit _ _ _ _ Hc).
  - rewrite (lookup_miss _ _ _ Hc). destruct (resolve w path) as [v|e]; simpl.
    + split.
      * split; simpl; [by apply insert_subseteq|by apply prefix_app_r].
      * intros path' Hne. by apply lookup_insert_ne.
    + split; [|done]. split; simpl; [done|by apply prefix_app_r].
Qed.








(** X2.  [identify] keeps the cache consistent with the world: what it
    stores is what the loader and the classifier compute. *)
Theorem identify_keeps_cache_consistent d g :
  cache_consistent w g → cache_consistent w (identify w (d, g)).2.2.
Proof.
  intros Hg. destruct (identify_globals w d g) as [->|[Hc _]]; [done|].
  intros p v. rewrite Hc. by apply cache_consistent_lookup.
Qed.

(** X3.  [identify] never drops or changes a cache entry or a log record:
    the cache and the log only grow, and no entry is added for a path other
    than the descriptor's own. *)
Theorem identify_globals_grow d g :
  globals_grow g (identify w (d, g)).2.2 ∧
  ∀ path, path ≠ desc_path d →
    _cached_packages (identify w (d, g)).2.2 !! path = _cached_packages g !! path.
Proof.
  destruct (identify_globals w d g) as [->|Hl]; [done|].
  destruct (lookup_globals_grow (desc_path d) g) as [Hg Hother]. split.
  - etrans; [exact Hg|]. by apply logs_only_grow.
  - intros p Hp. destruct Hl as [-> _]. by apply Hother.
Qed.
End CacheDiscipline.

Section IdentifyMore.
Variable w : World.

(** X4.  For a descriptor past the guards whose path is not cached and
    whose manifest parses and declares several build types, [identify]
    raises [KeyError('path')] from the handler of [_get_build_type]: the
    descriptor and the cache are what they were, and the log has gained one
    call of the loader and one of the classifier. *)
Theorem several_build_types_raise d g raw :
  desc_type d = None ∨ desc_type d = Some "ros" →
  path_exists w (path_join (desc_path d) "CATKIN_IGNORE") = false →
  path_exists w (path_join (desc_path d) "AMENT_IGNORE") = false →
  _cached_packages g !! desc_path d = None →
  package_exists_at w (desc_path d) = true →
  parse_package w (desc_path d) = Parsed raw →
  build_type_decl (evaluate_conditions w raw) = SeveralBuildTypes →
  identify w (d, g) =
  (Raised (KeyError "path"),
   (d, with_events g [LoaderCall (desc_path d);
                      ClassifierCall (name (evaluate_conditions w raw))])).
Proof.
  intros Ht Hc Ha Hcache Hex Hparse Hdecl. rewrite identify_run.
  rewrite bool_decide_eq_false_2 by (intros [? ?]; by destruct Ht).
  rewrite Hc, Ha, (lookup_miss _ _ _ Hcache).
  unfold resolve, resolve_events. by rewrite Hex, Hparse, Hdecl.
Qed.

(** X5.  For a descriptor past the guards whose lookup yields no package,
    no build type or an empty build type, [identify] leaves the descriptor
    alone: it raises [IgnoreLocationException] if the directory holds a
    legacy [manifest.xml], and returns normally otherwise. *)
Theorem identify_without_wet_package d g pkg build_type g1 :
  desc_type d = None ∨ desc_type d = Some "ros" →
  path_exists w (path_join (desc_path d) "CATKIN_IGNORE") = false →
  path_exists w (path_join (desc_path d) "AMENT_IGNORE") = false →
  get_package_with_build_type w (desc_path d) g
    = (Returned (pkg, build_type), g1) →
  pkg = None ∨ build_type = None ∨ build_type = Some "" →
  identify w (d, g) =
  (if path_exists w (path_join (desc_path d) "manifest.xml")
   then Raised IgnoreLocationException else Returned tt,
   (d, g1)).
Proof.
  intros Ht Hc Ha Hl Hno. rewrite identify_run.
  rewrite bool_decide_eq_false_2 by (intros [? ?]; by destruct Ht).
  rewrite Hc, Ha, Hl.
  assert (wet_package pkg build_type = None) as ->; [|done].
  destruct Hno as [-> | [-> | ->]]; [done|by destruct pkg|by destruct pkg].
Qed.

(** X6.  A descriptor that carries a type other than [ros] is not looked
    at: [identify] returns normally and descriptor, cache and log are what
    they were, whatever the directory holds. *)
Theorem identify_defers_to_other_type d g t :
  desc_type d = Some t → t ≠ "ros" →
  identify w (d, g) = (Returned tt, (d, g)).
Proof.
  intros Ht Hne. rewrite identify_run.
  rewrite bool_decide_eq_true_2; [done|]. rewrite Ht. split; congruence.
Qed.

(** X7.  Where [identify] runs to its end it leaves the path alone, sets
    the type to [ros.] followed by the build type, sets the name to the
    manifest's unless one was set, records the version under [version],
    and stores the setup-options accessor for [setup.py] exactly when the
    build type is [ament_python]; no other metadata key is written. *)
Theorem identify_populates d g pkg build_type g1 :
  desc_type d = None ∨ desc_type d = Some "ros" →
  path_exists w (path_join (desc_path d) "CATKIN_IGNORE") = false →
  path_exists w (path_join (desc_path d) "AMENT_IGNORE") = false →
  get_package_with_build_type w (desc_path d) g
    = (Returned (Some pkg, Some build_type), g1) →
  build_type ≠ "" →
  (build_type = "ament_python" →
   path_is_file w (path_join (desc_path d) "setup.py") = true) →
  conditions_evaluated pkg →
  ∃ d',
    identify w (d, g) = (Returned tt, (d', g1)) ∧
    desc_path d' = desc_path d ∧
    desc_type d' = Some ("ros." ++ build_type) ∧
    desc_name d' = Some (default (name pkg) (desc_name d)) ∧
    desc_metadata d' =
      (if decide (build_type = "ament_python")
       then <["get_python_setup_options" :=
                MetaSetupOptionsGetter (path_join (desc_path d) "setup.py")]>
              (<["version" := MetaString (version pkg)]> (desc_metadata d))
       else <["version" := MetaString (version pkg)]> (desc_metadata d)).
Proof.
  intros Ht Hc Ha Hl Hbt Hf Hev. exists (populated pkg build_type d).
  split.
  { rewrite identify_run.
    rewrite bool_decide_eq_false_2 by (intros [? ?]; by destruct Ht).
    rewrite Hc, Ha, Hl. simpl.
    destruct (String.eqb_spec build_type ""); [done|]. by apply populate_run. }
  unfold populated.
  set (d3 := set_metadata "version" _ _).
  set (d4 := routed Test _ (routed Run _ (routed Build _ d3))).
  assert (desc_path d4 = desc_path d ∧
          desc_type d4 = Some ("ros." ++ build_type) ∧
          desc_name d4 = Some (default (name pkg) (desc_name d)) ∧
          desc_metadata d4 = <["version" := MetaString (version pkg)]> (desc_metadata d))
    as (Hp & Hty & Hn & Hm).
  { subst d4.
    destruct (routed_frame Test (category_depends Test pkg)
                (routed Run (category_depends Run pkg)
                   (routed Build (category_depends Build pkg) d3)))
      as (-> & -> & -> & ->).
    destruct (routed_frame Run (category_depends Run pkg)
                (routed Build (category_depends Build pkg) d3))
      as (-> & -> & -> & ->).
    destruct (routed_frame Build (category_depends Build pkg) d3)
      as (-> & -> & -> & ->).
    subst d3. simpl. destruct (desc_name d) eqn:Hn; simpl; by rewrite ?Hn. }
  destruct (String.eqb_spec build_type "ament_python") as [-> | Hne].
  - rewrite decide_True by done. simpl. by rewrite Hp, Hty, Hn, Hm.
  - rewrite decide_False by done. done.
Qed.
End IdentifyMore.

#[global] Instance header_kept_preorder : PreOrder header_kept.
Proof.
  split.
  - intros s. by repeat split.
  - intros s1 s2 s3 (? & ? & ? & ? & ?) (? & ? & ? & ? & ?).
    repeat split; congruence.
Qed.

Lemma add_depends_header c l : steady header_kept (add_depends c l).
Proof.
  apply steady_for_each; [apply _|]. intros d _.
  destruct (dep_evaluated_condition d) as [[]|];
    [|apply steady_ret, _|apply steady_raise, _].
  apply steady_modify. intros s. by repeat split.
Qed.

Lemma add_depends_outcome c l s :
  (add_depends c l s).1 = Returned tt ∧
  Forall (λ d, dep_evaluated_condition d ≠ None) l ∨
  (add_depends c l s).1 = Raised AssertionError.
Proof.
  revert s. induction l as [|d l IH]; intros s; [left; by split|].
  unfold add_depends in *. cbn [for_each]. unfold py_bind at 1.
  destruct (dep_evaluated_condition d) as [[]|] eqn:Hd; [| |by right].
  - simpl. destruct (IH (add_dependency c
        {| dd_name := dep_name d; dd_metadata := _create_metadata d |} s.1, s.2))
      as [[Ho Hl]|Ho]; [left|by right].
    split; [done|]. constructor; [congruence|done].
  - simpl. destruct (IH s) as [[Ho Hl]|Ho]; [left|by right].
    split; [done|]. constructor; [congruence|done].
Qed.

Lemma dependency_loops_raise l1 l2 l3 (k : Py IdState unit) s :
  ¬ (Forall (λ d, dep_evaluated_condition d ≠ None) l1 ∧
     Forall (λ d, dep_evaluated_condition d ≠ None) l2 ∧
     Forall (λ d, dep_evaluated_condition d ≠ None) l3) →
  (py_bind (add_depends Build l1) (λ _,
     py_bind (add_depends Run l2) (λ _,
       py_bind (add_depends Test l3) (λ _, k))) s).1 = Raised AssertionError ∧
  header_kept s
    (py_bind (add_depends Build l1) (λ _,
       py_bind (add_depends Run l2) (λ _,
         py_bind (add_depends Test l3) (λ _, k))) s).2.
Proof.
  intros Hev.
  pose proof (add_depends_header Build l1 s) as H1.
  destruct (add_depends_outcome Build l1 s) as [[Ho1 Hl1]|Ho1];
    unfold py_bind at 1 4;
    destruct (add_depends Build l1 s) as [o1 s4]; simpl in Ho1, H1; subst o1;
    [|done].
  pose proof (add_depends_header Run l2 s4) as H2.
  destruct (add_depends_outcome Run l2 s4) as [[Ho2 Hl2]|Ho2];
    unfold py_bind at 1 3;
    destruct (add_depends Run l2 s4) as [o2 s5]; simpl in Ho2, H2; subst o2;
    [|split; [done|by etrans]].
  pose proof (add_depends_header Test l3 s5) as H3.
  destruct (add_depends_outcome Test l3 s5) as [[Ho3 Hl3]|Ho3];
    unfold py_bind at 1 2;
    destruct (add_depends Test l3 s5) as [o3 s6]; simpl in Ho3, H3; subst o3;
    [by destruct Hev|].
  split; [done|]. etrans; [exact H1|by etrans].
Qed.

Section IdentifyErrors.
Variable w : World.

Lemma identify_type_kept_or_set d g :
  type_kept_or_set d (identify w (d, g)).2.1.
Proof.
  rewrite identify_run.
  case_bool_decide; [reflexivity|].
  destruct (path_exists w (path_join (desc_path d) "CATKIN_IGNORE"));
    [reflexivity|].
  destruct (path_exists w (path_join (desc_path d) "AMENT_IGNORE"));
    [reflexivity|].
  destruct (get_package_with_build_type w (desc_path d) g)
    as [[[pkg build_type]|e] g1]; [|reflexivity].
  destruct (wet_package pkg build_type) as [[pkg' bt]|];
    [|destruct (path_exists w _); reflexivity].
  apply (populate_steady_for w type_kept_or_set pkg' bt); try (by left).
  intros d0. right. by exists bt.
Qed.

(** X8.  Once [identify] has changed the type of a descriptor, a further
    call on that descriptor, in whatever globals, returns at once and
    changes nothing: the type it sets is not the family tag. *)
Theorem identify_once d g g2 :
  desc_type (identify w (d, g)).2.1 ≠ desc_type d →
  identify w ((identify w (d, g)).2.1, g2)
  = (Returned tt, ((identify w (d, g)).2.1, g2)).
Proof.
  intros Hne. destruct (identify_type_kept_or_set d g) as [?|[bt Hbt]]; [done|].
  rewrite identify_run, bool_decide_eq_true_2; [done|].
  rewrite Hbt. split; [done|]. intros Heq. vm_compute in Heq. discriminate Heq.
Qed.

Lemma populate_unevaluated d g pkg build_type :
  (build_type = "ament_python" →
   path_is_file w (path_join (desc_path d) "setup.py") = true) →
  ¬ conditions_evaluated pkg →
  (populate w pkg build_type (d, g)).1 = Raised AssertionError ∧
  (populate w pkg build_type (d, g)).2.2 = g ∧
  desc_type (populate w pkg build_type (d, g)).2.1
    = Some ("ros." ++ build_type) ∧
  desc_name (populate w pkg build_type (d, g)).2.1
    = Some (default (name pkg) (desc_name d)) ∧
  desc_metadata (populate w pkg build_type (d, g)).2.1
    = <["version" := MetaString (version pkg)]> (desc_metadata d).
Proof.
  intros Hf Hev. unfold populate.
  rewrite (run_bind_ret get _ _ (d, g) (d, g) eq_refl). cbn [fst snd].
  erewrite run_bind_ret; cycle 1.
  { destruct (String.eqb_spec build_type "ament_python") as [-> | ]; [|done].
    by rewrite Hf. }
  erewrite run_bind_ret by done.
  rewrite (run_bind_ret _ _ _ tt
             (match desc_name d with
              | None => set_name (name pkg) (set_type ("ros." ++ build_type) d)
              | Some _ => set_type ("ros." ++ build_type) d
              end, g)); cycle 1.
  { erewrite run_bind_ret by done. cbn [fst snd]. simpl.
    by destruct (desc_name d). }
  erewrite run_bind_ret by done. cbn [fst snd].
  set (s3 := (set_metadata "version" _ _, g)).
  assert (∀ s, header_kept s3 s →
            s.2 = g ∧
            desc_type s.1 = Some ("ros." ++ build_type) ∧
            desc_name s.1 = Some (default (name pkg) (desc_name d)) ∧
            desc_metadata s.1
              = <["version" := MetaString (version pkg)]> (desc_metadata d))
    as Hhead.
  { intros s (-> & _ & -> & -> & ->). subst s3. simpl.
    destruct (desc_name d) eqn:Hn; simpl; by rewrite ?Hn. }
  destruct (dependency_loops_raise
              (build_depends pkg ++ buildtool_depends pkg)
              (build_export_depends pkg ++ buildtool_export_depends pkg
                 ++ exec_depends pkg)
              (test_depends pkg)
              (if String.eqb build_type "ament_python"
               then update_desc
                      (set_metadata "get_python_setup_options"
                         (MetaSetupOptionsGetter
                            (path_join (desc_path d) "setup.py")))
               else py_ret tt) s3) as [Ho Hh].
  { intros (H1 & H2 & H3). apply Hev. unfold conditions_evaluated. simpl.
    by rewrite !Forall_app in *. }
  split; [exact Ho|]. by apply Hhead.
Qed.

(** X9.  Where the manifest has a dependency whose condition was never
    evaluated, [identify] raises [AssertionError] from one of its three
    loops; by then the type, the name and the version are set on the
    descriptor, the accessor for [setup.py] is not stored, and the globals
    are those after the lookup. *)
Theorem identify_unevaluated_condition d g pkg build_type g1 :
  desc_type d = None ∨ desc_type d = Some "ros" →
  path_exists w (path_join (desc_path d) "CATKIN_IGNORE") = false →
  path_exists w (path_join (desc_path d) "AMENT_IGNORE") = false →
  get_package_with_build_type w (desc_path d) g
    = (Returned (Some pkg, Some build_type), g1) →
  build_type ≠ "" →
  (build_type = "ament_python" →
   path_is_file w (path_join (desc_path d) "setup.py") = true) →
  ¬ conditions_evaluated pkg →
  (identify w (d, g)).1 = Raised AssertionError ∧
  (identify w (d, g)).2.2 = g1 ∧
  desc_type (identify w (d, g)).2.1 = Some ("ros." ++ build_type) ∧
  desc_name (identify w (d, g)).2.1 = Some (default (name pkg) (desc_name d)) ∧
  desc_metadata (identify w (d, g)).2.1
    = <["version" := MetaString (version pkg)]> (desc_metadata d).
Proof.
  intros Ht Hc Ha Hl Hbt Hf Hev.
  rewrite identify_run.
  rewrite bool_decide_eq_false_2 by (intros [? ?]; by destruct Ht).
  rewrite Hc, Ha, Hl. simpl.
  destruct (String.eqb_spec build_type ""); [done|].
  by apply populate_unevaluated.
Qed.

End IdentifyErrors.

(** ** The cache is transparent *)

Lemma globals_blind_ret {A} (a : A) : globals_blind (py_ret a).
Proof. by intros d g g'. Qed.

Lemma globals_blind_raise {A} e : globals_blind (@raise IdState A e).
Proof. by intros d g g'. Qed.

Lemma globals_blind_update f : globals_blind (update_desc f).
Proof. by intros d g g'. Qed.

Lemma globals_blind_emit e : globals_blind (on_snd (emit e)).
Proof. by intros d g g'. Qed.

Lemma globals_blind_bind {A B} (m : Py IdState A) (k : A → Py IdState B) :
  globals_blind m → (∀ a, globals_blind (k a)) → globals_blind (py_bind m k).
Proof.
  intros Hm Hk d g g'. unfold py_bind. destruct (Hm d g g') as [Ho Hd].
  destruct (m (d, g)) as [o [d1 g1]], (m (d, g')) as [o' [d1' g1']].
  simpl in *. subst. destruct o as [a|e]; [|done]. apply Hk.
Qed.

Lemma globals_blind_get {A} (k : PackageDescriptor → Py IdState A) :
  (∀ d, globals_blind (k d)) → globals_blind (py_bind get (λ s, k s.1)).
Proof. intros Hk d g g'. unfold py_bind, get. simpl. apply Hk. Qed.

Lemma globals_blind_for_each {A} (l : list A) (body : A → Py IdState unit) :
  (∀ x, globals_blind (body x)) → globals_blind (for_each l body).
Proof.
  intros Hb. induction l as [|x l IH]; simpl; [apply globals_blind_ret|].
  apply globals_blind_bind; [apply Hb|by intros _].
Qed.

Lemma globals_blind_add_depends c l : globals_blind (add_depends c l).
Proof.
  apply globals_blind_for_each. intros d.
  destruct (dep_evaluated_condition d) as [[]|];
    [apply globals_blind_update|apply globals_blind_ret|apply globals_blind_raise].
Qed.

Section Transparent.
Variable w : World.

Lemma globals_blind_populate pkg build_type :
  globals_blind (populate w pkg build_type).
Proof.
  intros d g g'. unfold populate.
  rewrite (run_bind_ret get _ (d, g') (d, g') (d, g') eq_refl),
    (run_bind_ret get _ (d, g) (d, g) (d, g) eq_refl).
  cbn [fst snd].
  match goal with
  | |- (?m (_, _)).1 = _ ∧ _ => enough (globals_blind m) as H by apply H
  end.
  apply globals_blind_bind; [|intros _].
  { destruct (String.eqb build_type "ament_python"); [|apply globals_blind_ret].
    destruct (negb _); [|apply globals_blind_ret].
    apply globals_blind_bind; [apply globals_blind_emit|].
    intros _. apply globals_blind_raise. }
  apply globals_blind_bind; [apply globals_blind_update|intros _].
  apply globals_blind_bind; [|intros _].
  { apply (globals_blind_get (λ d0, match desc_name d0 with
                                     | None => update_desc (set_name (name pkg))
                                     | Some _ => py_ret tt
                                     end)).
    intros d0. destruct (desc_name d0);
      [apply globals_blind_ret|apply globals_blind_update]. }
  apply globals_blind_bind; [apply globals_blind_update|intros _].
  do 3 (apply globals_blind_bind; [apply globals_blind_add_depends|intros _]).
  destruct (String.eqb build_type "ament_python");
    [apply globals_blind_update|apply globals_blind_ret].
Qed.

(** X16.  The cache is transparent: under two consistent caches,
    [identify] ends the same way and leaves the same descriptor, whether
    the path was cached or is loaded now. *)
Theorem identify_cache_transparent d g g' :
  cache_consistent w g → cache_consistent w g' →
  (identify w (d, g')).1 = (identify w (d, g)).1 ∧
  (identify w (d, g')).2.1 = (identify w (d, g)).2.1.
Proof.
  intros Hg Hg'. rewrite !identify_run.
  case_bool_decide; [done|].
  destruct (path_exists w (path_join (desc_path d) "CATKIN_IGNORE")); [done|].
  destruct (path_exists w (path_join (desc_path d) "AMENT_IGNORE")); [done|].
  pose proof (lookup_consistent w (desc_path d) g Hg) as Hl.
  pose proof (lookup_consistent w (desc_path d) g' Hg') as Hl'.
  destruct (get_package_with_build_type w (desc_path d) g) as [o g1].
  destruct (get_package_with_build_type w (desc_path d) g') as [o' g1'].
  simpl in Hl, Hl'. subst o o'.
  destruct (resolve w (desc_path d)) as [[pkg build_type]|e]; [|done].
  destruct (wet_package pkg build_type) as [[pkg' bt]|]; [|done].
  apply globals_blind_populate.
Qed.
End Transparent.

(** ** More on [augment_packages] *)

#[global] Instance members_added_preorder : PreOrder members_added.
Proof.
  split.
  - intros d. unfold members_added. split_and!; try done. congruence.
  - intros d1 d2 d3 (Hp & Ht & Hn & Hm & Hte & Hs & Ha)
      (Hp' & Ht' & Hn' & Hm' & Hte' & Hs' & Ha').
    unfold members_added. split_and!; try congruence.
    + intros c. etrans; [apply Hs|apply Hs'].
    + intros c n md H1 H3.
      destruct (desc_deps c d2 !! n) as [md2|] eqn:H2; [|eauto].
      pose proof (Hs' c) as Hsub. rewrite map_subseteq_spec in Hsub.
      apply Hsub in H2 as H2'. rewrite H3 in H2'. injection H2' as ->. eauto.
Qed.

#[global] Instance heap_members_added_preorder : PreOrder heap_members_added.
Proof.
  split.
  - intros heap. split; [done|]. intros r d Hd. by exists d.
  - intros h1 h2 h3 [Hl H12] [Hl' H23]. split; [congruence|].
    intros r d Hd.
    destruct (H12 r d Hd) as (d2 & Hd2 & Hg2).
    destruct (H23 r d2 Hd2) as (d3 & Hd3 & Hg3).
    exists d3. split; [done|]. by etrans.
Qed.

Lemma add_member_descriptor_added c n d :
  c ≠ Test → members_added d (add_dependency c (member_descriptor n) d).
Proof.
  intros Hc. unfold members_added. split_and!; try done.
  - by destruct c.
  - intros c'. unfold desc_deps.
    destruct c, c'; simpl; try done; apply set_add_subseteq.
  - intros c' n' md Hn Hn'.
    assert (set_add (member_descriptor n) (desc_deps c' d) !! n' = Some md)
      as Hadd.
    { unfold desc_deps in *. destruct c, c'; simpl in *; congruence. }
    rewrite set_add_lookup, Hn in Hadd. simpl in Hadd.
    case_decide; congruence.
Qed.

Lemma alter_heap_members_added f r (heap : Heap) :
  (∀ d, members_added d (f d)) → heap_members_added heap (alter f r heap).
Proof.
  intros Hf. split; [apply length_alter|].
  intros r' d Hd. rewrite list_lookup_alter. case_decide; subst.
  - rewrite Hd. simpl. eauto.
  - exists d. split; [done|reflexivity].
Qed.

(** X11.  Returning or raising, [augment_packages] keeps the number of
    descriptors and, of each descriptor, the path, the type, the name, the
    metadata and the test set; the build and the run set keep what they
    hold, and whatever is new in them has no metadata. *)
Theorem augment_only_adds_members g descs heap :
  heap_members_added heap (augment_packages g descs heap).2.
Proof.
  revert heap. change (steady heap_members_added (augment_packages g descs)).
  unfold augment_packages.
  apply steady_bind; [apply _|apply steady_get, _|]. intros heap.
  apply steady_for_each; [apply _|]. intros [p [pkg r]] _.
  apply steady_for_each; [apply _|]. intros gd _.
  destruct (group_evaluated_condition gd) as [[]|];
    [|apply steady_ret, _|apply steady_raise, _].
  apply steady_bind; [apply _|apply steady_lift, _|]. intros members.
  apply steady_for_each; [apply _|]. intros n _. unfold add_member.
  apply steady_bind; [apply _| |intros _];
    apply steady_modify; intros h; apply alter_heap_members_added;
    intros d; by apply add_member_descriptor_added.
Qed.

(** X10.  [augment_packages] returns normally exactly if every group
    dependency of every cached package of the batch has an evaluated
    condition and, where one of those conditions is true so that members
    are asked for, every group membership of those packages has an
    evaluated condition as well; otherwise it raises [AssertionError], and
    nothing else. *)
Theorem augment_returns_iff_evaluated g descs heap :
  ((augment_packages g descs heap).1 = Returned tt ↔
   group_conditions_evaluated g heap descs ∧
   (uses_groups g heap descs → membership_conditions_evaluated g heap descs)) ∧
  ((augment_packages g descs heap).1 = Returned tt ∨
   (augment_packages g descs heap).1 = Raised AssertionError).
Proof.
  rewrite <- entries_ok_iff.
  destruct (augment_outcome g descs heap) as [[Ho Hf]|[Ho Hf]]; rewrite Ho.
  - split; [done|by left].
  - split; [|by right]. split; [done|]. intros Hall. by destruct Hf.
Qed.

Lemma descriptor_eq d d' :
  desc_path d = desc_path d' → desc_type d = desc_type d' →
  desc_name d = desc_name d' → desc_metadata d = desc_metadata d' →
  (∀ c, desc_deps c d = desc_deps c d') → d = d'.
Proof.
  destruct d as [p t n [b r te] m], d' as [p' t' n' [b' r' te'] m'].
  simpl. intros -> -> -> -> Hd.
  pose proof (Hd Build) as Hb. pose proof (Hd Run) as Hr.
  pose proof (Hd Test) as Hte. unfold desc_deps in *. simpl in *.
  by subst.
Qed.

Lemma add_members_ext names names' d :
  (∀ n, n ∈ names ↔ n ∈ names') →
  add_members names d = add_members names' d.
Proof.
  intros Hn.
  destruct (add_members_frame names d) as (Hp & Ht & Hna & Hm & Hte).
  destruct (add_members_frame names' d) as (Hp' & Ht' & Hna' & Hm' & Hte').
  apply descriptor_eq; try congruence.
  intros c. destruct (decide (c = Test)) as [->|Hc]; [congruence|].
  apply map_eq. intros n. rewrite !add_members_lookup by done.
  destruct (desc_deps c d !! n); [done|].
  destruct (decide (n ∈ names)) as [Hin|Hin].
  - rewrite decide_True; [done|]. by apply Hn.
  - rewrite decide_False; [done|]. by rewrite <- Hn.
Qed.

Lemma add_members_idem names d :
  add_members names (add_members names d) = add_members names d.
Proof.
  destruct (add_members_frame names (add_members names d))
    as (Hp & Ht & Hna & Hm & Hte).
  apply descriptor_eq; try done.
  intros c. destruct (decide (c = Test)) as [->|Hc]; [done|].
  apply map_eq. intros n. rewrite !add_members_lookup by done.
  destruct (desc_deps c d !! n); [done|]. by destruct (decide (n ∈ names)).
Qed.

Lemma augmented_paths pkgs entries (heap : Heap) r :
  desc_path <$> augmented pkgs entries heap !! r = desc_path <$> heap !! r.
Proof.
  revert heap. induction entries as [|e entries IH]; intros heap; [done|].
  unfold augmented in *. simpl. rewrite IH, list_lookup_alter.
  case_decide; [|done]. subst. destruct (heap !! e.2.2) as [d|]; [|done]. simpl.
  by destruct (add_members_frame (group_members pkgs e.2.1) d) as (-> & _).
Qed.

Lemma collect_pkgs_ext g (heap heap' : Heap) descs pkgs :
  (∀ r, desc_path <$> heap' !! r = desc_path <$> heap !! r) →
  collect_pkgs g heap' descs pkgs = collect_pkgs g heap descs pkgs.
Proof.
  intros Hp. revert pkgs. induction descs as [|r descs IH]; intros pkgs; [done|].
  simpl. specialize (Hp r).
  destruct (heap' !! r) as [d'|], (heap !! r) as [d|]; simpl in Hp;
    try done.
  injection Hp as ->.
  destruct (_cached_packages g !! desc_path d) as [[[pkg|] bt]|]; by rewrite IH.
Qed.

(** X12.  [augment_packages] is idempotent: after a call that returned,
    a second call on the same batch returns and changes nothing. *)
Theorem augment_idempotent g descs heap heap1 :
  augment_packages g descs heap = (Returned tt, heap1) →
  augment_packages g descs heap1 = (Returned tt, heap1).
Proof.
  intros [Hev Hh]%augment_returned.
  set (pkgs := collect_pkgs g heap descs []) in *.
  assert (∀ r, desc_path <$> heap1 !! r = desc_path <$> heap !! r) as Hpaths
    by (intros r; subst heap1; apply augmented_paths).
  assert (collect_pkgs g heap1 descs [] = pkgs) as Hpk
    by (by apply collect_pkgs_ext).
  assert (pkgs_ok g heap pkgs) as Hok by apply pkgs_ok_collect, pkgs_ok_nil.
  pose proof (pkgs_ok_refs _ _ _ Hok) as Hnd.
  rewrite augment_run; rewrite Hpk; [|done].
  f_equal. rewrite Hh. apply list_eq. intros r.
  destruct (decide (r ∈ pkgs.*2.*2)) as [Hr|Hr];
    [|by apply augmented_lookup_ne].
  apply list_elem_of_fmap in Hr as ([pkg r'] & Hr & He).
  apply list_elem_of_fmap in He as ([p e'] & He' & He). simpl in *. subst.
  rewrite (augmented_lookup _ _ _ _ _ _ Hnd He).
  rewrite (augmented_lookup _ _ _ _ _ _ Hnd He).
  destruct (heap !! r'); [|done]. simpl. by rewrite add_members_idem.
Qed.

Lemma collect_pkgs_without_cached g heap descs pkgs :
  (∀ r d, r ∈ descs → heap !! r = Some d → cached_package g d = None) →
  collect_pkgs g heap descs pkgs = pkgs.
Proof.
  revert pkgs. induction descs as [|r descs IH]; intros pkgs Hno; [done|].
  assert (collect_pkgs g heap descs pkgs = pkgs) as IH'.
  { apply IH. intros r' d Hr'. apply Hno. by right. }
  simpl. destruct (heap !! r) as [d|] eqn:Hd; [|done].
  specialize (Hno r d (list_elem_of_here _ _) Hd). unfold cached_package in Hno.
  by destruct (_cached_packages g !! desc_path d) as [[[pkg|] bt]|].
Qed.

(** X14.  A batch none of whose descriptors has a cached package (its
    path was never looked up, or holds no package) is left as it is, and
    the call returns normally. *)
Theorem augment_without_cached g descs heap :
  (∀ r d, r ∈ descs → heap !! r = Some d → cached_package g d = None) →
  augment_packages g descs heap = (Returned tt, heap).
Proof.
  intros Hno. rewrite augment_unfold.
  by rewrite collect_pkgs_without_cached.
Qed.

Lemma entries_ok_perm g heap descs descs' :
  descs ≡ₚ descs' →
  entries_ok (collect_pkgs g heap descs []) (collect_pkgs g heap descs []) →
  entries_ok (collect_pkgs g heap descs' []) (collect_pkgs g heap descs' []).
Proof.
  intros Hperm. rewrite !entries_ok_iff.
  unfold group_conditions_evaluated, uses_groups,
    membership_conditions_evaluated.
  by rewrite Hperm.
Qed.

(** While a membership condition is unevaluated no member is added. *)
Lemma blocked_loop_heap pkgs (entries : PkgsDict) (heap : Heap) :
  memberships_evaluated (packages_of pkgs) = false →
  (for_each entries (entry_body pkgs) heap).2 = heap.
Proof.
  intros Hm.
  assert (∀ r gds, (for_each gds (group_body pkgs r) heap).2 = heap) as Hgroups.
  { intros r gds. induction gds as [|gd gds IH]; [done|]. simpl.
    pose proof (group_body_run pkgs r gd heap) as Hrun. rewrite Hm in Hrun.
    destruct (group_evaluated_condition gd) as [[]|].
    - by rewrite (run_bind_raise _ _ _ _ _ Hrun).
    - by rewrite (run_bind_ret _ _ _ _ _ Hrun).
    - by rewrite (run_bind_raise _ _ _ _ _ Hrun). }
  induction entries as [|e entries IH]; [done|]. simpl.
  destruct (entry_body pkgs e heap) as [[[]|ex] heap1] eqn:Hrun;
    pose proof (Hgroups e.2.2 (group_depends e.2.1)) as Hh;
    unfold entry_body in Hrun; rewrite Hrun in Hh; simpl in Hh; subst heap1.
  - by rewrite (run_bind_ret _ _ _ _ _ Hrun).
  - by rewrite (run_bind_raise _ _ _ _ _ Hrun).
Qed.

(** X15.  For a batch of descriptors with pairwise distinct paths whose
    group conditions are evaluated, the order in which the batch lists
    them does not matter: every permutation gives the same heap. *)
Theorem augment_order_independent g heap descs descs' :
  descs ≡ₚ descs' →
  NoDup (batch_paths heap descs) →
  group_conditions_evaluated g heap descs →
  augment_packages g descs' heap = augment_packages g descs heap.
Proof.
  intros Hperm Hnd Hev.
  assert (NoDup (batch_paths heap descs')) as Hnd'.
  { unfold batch_paths in *. by rewrite <- Hperm. }
  set (pkgs := collect_pkgs g heap descs []).
  set (pkgs' := collect_pkgs g heap descs' []).
  assert (∀ e, e ∈ pkgs' ↔ e ∈ pkgs) as Hentries.
  { intros [p [pkg r]]. unfold pkgs, pkgs'. rewrite !collect_pkgs_entry.
    rewrite !batch_owner_unique by done. by rewrite Hperm. }
  destruct (augment_outcome g descs heap) as [[_ Hok]|[Ho Hno]].
  - pose proof (entries_ok_perm _ _ _ _ Hperm Hok) as Hok'.
    rewrite (augment_run _ _ _ Hok), (augment_run _ _ _ Hok').
    fold pkgs pkgs'.
    assert (∀ pkg n, n ∈ group_members pkgs' pkg ↔ n ∈ group_members pkgs pkg)
      as Hmembers.
    { intros pkg n. rewrite !elem_of_group_members.
      apply exist_proper. intros gd. do 2 apply and_iff_compat_l.
      rewrite !elem_of_member_names.
      apply exist_proper. intros pkg2. apply and_iff_compat_r.
      unfold packages_of. rewrite !list_elem_of_fmap.
      apply exist_proper. intros e. by rewrite Hentries. }
    assert (pkgs_ok g heap pkgs) as Hpk by apply pkgs_ok_collect, pkgs_ok_nil.
    assert (pkgs_ok g heap pkgs') as Hpk' by apply pkgs_ok_collect, pkgs_ok_nil.
    f_equal. apply list_eq. intros r.
    destruct (decide (r ∈ pkgs.*2.*2)) as [Hr|Hr].
    + apply list_elem_of_fmap in Hr as ([pkg r'] & Hr & He).
      apply list_elem_of_fmap in He as ([p e'] & He' & He). simpl in *. subst.
      rewrite (augmented_lookup _ _ _ _ _ _ (pkgs_ok_refs _ _ _ Hpk) He).
      apply Hentries in He.
      rewrite (augmented_lookup _ _ _ _ _ _ (pkgs_ok_refs _ _ _ Hpk') He).
      destruct (heap !! r'); [|done]. simpl. f_equal.
      apply add_members_ext. intros n. apply Hmembers.
    + rewrite !augmented_lookup_ne; [done|done|].
      intros Hr'. apply Hr.
      apply list_elem_of_fmap in Hr' as ([pkg r'] & Hr'' & He).
      apply list_elem_of_fmap in He as ([p e'] & He' & He). simpl in *. subst.
      apply Hentries in He.
      apply (list_elem_of_fmap_2 snd) in He.
      by apply (list_elem_of_fmap_2 snd) in He.
  - assert (¬ membership_conditions_evaluated g heap descs) as Hmem.
    { intros Hmem. apply Hno, entries_ok_iff. by split. }
    assert (¬ membership_conditions_evaluated g heap descs') as Hmem'.
    { unfold membership_conditions_evaluated in *. by rewrite <- Hperm. }
    rewrite <- memberships_iff in Hmem, Hmem'.
    apply not_true_is_false in Hmem, Hmem'.
    destruct (augment_outcome g descs' heap) as [[_ Hok']|[Ho' _]].
    { destruct Hno. by apply (entries_ok_perm g heap descs' descs). }
    pose proof (blocked_loop_heap _ (collect_pkgs g heap descs []) heap Hmem) as Hh.
    pose proof (blocked_loop_heap _ (collect_pkgs g heap descs' []) heap Hmem')
      as Hh'.
    rewrite <- augment_unfold in Hh, Hh'.
    destruct (augment_packages g descs heap), (augment_packages g descs' heap).
    simpl in *. congruence.
Qed.

(** X1.  A lookup that returns has its answer in the cache afterwards; a
    second lookup of the path returns the same pair and leaves the cache
    and the log exactly as they are, and so does any lookup of a path that
    is cached. *)
Theorem lookup_memoised w path g v g1 :
  get_package_with_build_type w path g = (Returned v, g1) →
  _cached_packages g1 !! path = Some v ∧
  get_package_with_build_type w path g1 = (Returned v, g1) ∧
  (is_Some (_cached_packages g !! path) → g1 = g).
Proof.
  intros Hl. pose proof (lookup_stores _ _ _ _ _ Hl) as Hs. split_and!.
  - done.
  - by apply lookup_hit.
  - intros [v0 Hc]. rewrite (lookup_hit _ _ _ _ Hc) in Hl. congruence.
Qed.

(** ** The further properties on the sample workspaces *)

Lemma lookup_memoised_witness :
  get_package_with_build_type demo_world "/ws/demo"
    (get_package_with_build_type demo_world "/ws/demo" initial_globals).2
  = (Returned (Some demo_package, Some "ament_cmake"),
     (get_package_with_build_type demo_world "/ws/demo" initial_globals).2) ∧
  events (get_package_with_build_type demo_world "/ws/demo" initial_globals).2
  = [LoaderCall "/ws/demo"; ClassifierCall "demo"].
Proof.
  split; [|vm_compute; reflexivity].
  apply (lookup_memoised demo_world "/ws/demo" initial_globals).
  vm_compute. reflexivity.
Defined.

Lemma identify_keeps_cache_consistent_witness :
  cache_consistent demo_world
    (identify demo_world (fresh_descriptor "/ws/demo", initial_globals)).2.2.
Proof.
  apply identify_keeps_cache_consistent, cache_consistent_initial.
Defined.

Lemma identify_globals_grow_witness :
  _cached_packages
    (identify demo_world
       (fresh_descriptor "/ws/robot",
        (get_package_with_build_type demo_world "/ws/lidar" initial_globals).2)).2.2
    !! "/ws/lidar"
  = Some (Some member_package, Some "ament_cmake").
Proof.
  rewrite (proj2 (identify_globals_grow demo_world
                    (fresh_descriptor "/ws/robot")
                    (get_package_with_build_type demo_world "/ws/lidar"
                       initial_globals).2) "/ws/lidar");
    [vm_compute; reflexivity|discriminate].
Defined.

Lemma several_build_types_raise_witness :
  identify demo_world (fresh_descriptor "/ws/ambiguous", initial_globals)
  = (Raised (KeyError "path"),
     (fresh_descriptor "/ws/ambiguous",
      with_events initial_globals
        [LoaderCall "/ws/ambiguous"; ClassifierCall "ambiguous"])).
Proof.
  apply (several_build_types_raise demo_world
           (fresh_descriptor "/ws/ambiguous") initial_globals ambiguous_package);
    [left; reflexivity|reflexivity..].
Defined.

Lemma identify_without_wet_package_witness :
  (∃ g1, identify second_world (fresh_descriptor "/ws/dry", initial_globals)
         = (Raised IgnoreLocationException, (fresh_descriptor "/ws/dry", g1))) ∧
  (∃ g1, identify second_world (fresh_descriptor "/ws/blank", initial_globals)
         = (Returned tt, (fresh_descriptor "/ws/blank", g1))).
Proof.
  split; eexists.
  - apply (identify_without_wet_package second_world
             (fresh_descriptor "/ws/dry") initial_globals None None);
      [left; reflexivity|reflexivity|reflexivity
      |vm_compute; reflexivity|left; reflexivity].
  - apply (identify_without_wet_package second_world
             (fresh_descriptor "/ws/blank") initial_globals
             (Some (bare_package "blank" (SingleBuildType ""))) (Some ""));
      [left; reflexivity|reflexivity|reflexivity
      |vm_compute; reflexivity|right; right; reflexivity].
Defined.

Lemma identify_defers_to_other_type_witness :
  identify demo_world (typed_descriptor "/ws/demo" "cmake", initial_globals)
  = (Returned tt, (typed_descriptor "/ws/demo" "cmake", initial_globals)).
Proof.
  apply (identify_defers_to_other_type demo_world _ _ "cmake");
    [reflexivity|discriminate].
Defined.

Lemma identify_populates_witness :
  conditions_evaluated python_package ∧
  ∃ d',
    (identify second_world (fresh_descriptor "/ws/py", initial_globals)).1
      = Returned tt ∧
    (identify second_world (fresh_descriptor "/ws/py", initial_globals)).2.1
      = d' ∧
    desc_type d' = Some "ros.ament_python" ∧
    desc_name d' = Some "demo_py" ∧
    desc_metadata d' =
      <["get_python_setup_options" := MetaSetupOptionsGetter "/ws/py/setup.py"]>
        (<["version" := MetaString "0.1.0"]> ∅).
Proof.
  assert (conditions_evaluated python_package) as Hev
    by (repeat constructor; discriminate).
  split; [exact Hev|].
  destruct (identify_populates second_world (fresh_descriptor "/ws/py")
              initial_globals python_package "ament_python"
              (get_package_with_build_type second_world "/ws/py"
                 initial_globals).2)
    as (d' & Hrun & _ & Hty & Hn & Hm);
    [left; reflexivity|reflexivity|reflexivity|vm_compute; reflexivity
    |discriminate|reflexivity|exact Hev|].
  exists d'. rewrite Hrun. split_and!; done.
Defined.

Lemma identify_once_witness :
  identify demo_world
    ((identify demo_world (fresh_descriptor "/ws/demo", initial_globals)).2.1,
     initial_globals)
  = (Returned tt,
     ((identify demo_world (fresh_descriptor "/ws/demo", initial_globals)).2.1,
      initial_globals)).
Proof.
  apply (identify_once demo_world (fresh_descriptor "/ws/demo")
           initial_globals initial_globals).
  vm_compute. discriminate.
Defined.

Lemma identify_unevaluated_condition_witness :
  ¬ conditions_evaluated unevaluated_package ∧
  (identify second_world (fresh_descriptor "/ws/raw", initial_globals)).1
    = Raised AssertionError ∧
  desc_type
    (identify second_world (fresh_descriptor "/ws/raw", initial_globals)).2.1
    = Some "ros.ament_cmake".
Proof.
  assert (¬ conditions_evaluated unevaluated_package) as Hev.
  { unfold conditions_evaluated. rewrite Forall_forall. intros H.
    apply (H {| dep_name := "rviz"; dep_evaluated_condition := None;
                version_lte := None; version_lt := None; version_gte := None;
                version_gt := None; version_eq := None |});
      [right; left|reflexivity]. }
  split; [exact Hev|].
  destruct (identify_unevaluated_condition second_world
              (fresh_descriptor "/ws/raw") initial_globals
              unevaluated_package "ament_cmake"
              (get_package_with_build_type second_world "/ws/raw"
                 initial_globals).2)
    as (Ho & _ & Hty & _);
    [left; reflexivity|reflexivity|reflexivity|vm_compute; reflexivity
    |discriminate|discriminate|exact Hev|].
  split; [exact Ho|exact Hty].
Defined.

Lemma augment_returns_iff_evaluated_witness :
  group_conditions_evaluated robot_sonar_scan.2 robot_sonar_scan.1 [0; 1] ∧
  uses_groups robot_sonar_scan.2 robot_sonar_scan.1 [0; 1] ∧
  ¬ membership_conditions_evaluated robot_sonar_scan.2 robot_sonar_scan.1 [0; 1] ∧
  (augment_packages robot_sonar_scan.2 [0; 1] robot_sonar_scan.1).1
    = Raised AssertionError.
Proof.
  assert (uses_groups robot_sonar_scan.2 robot_sonar_scan.1 [0; 1]) as Huses.
  { apply Exists_cons_hd. vm_compute. by apply Exists_cons_hd. }
  assert (¬ membership_conditions_evaluated robot_sonar_scan.2
              robot_sonar_scan.1 [0; 1]) as Hmem.
  { intros H. apply Forall_cons in H as [_ H]. apply Forall_cons in H as [H _].
    vm_compute in H. apply Forall_cons in H as [H _]. by apply H. }
  split_and!; [|exact Huses|exact Hmem|].
  { repeat constructor; vm_compute; repeat constructor; discriminate. }
  destruct (augment_returns_iff_evaluated robot_sonar_scan.2 [0; 1]
              robot_sonar_scan.1) as [Hiff [Ho|Ho]]; [|exact Ho].
  exfalso. apply Hiff in Ho as [_ Ho]. by apply Hmem, Ho.
Defined.

(** An unevaluated group condition ends the call in the same way. *)
Example augment_unevaluated_group_condition :
  ¬ group_conditions_evaluated rawgroup_scan.2 rawgroup_scan.1 [0; 1] ∧
  (augment_packages rawgroup_scan.2 [0; 1] rawgroup_scan.1).1
    = Raised AssertionError.
Proof.
  split; [|vm_compute; reflexivity].
  intros H. apply Forall_cons in H as [H _]. vm_compute in H.
  apply Forall_cons in H as [H _]. by apply H.
Qed.

Lemma augment_idempotent_witness :
  ∃ heap1,
    augment_packages robot_lidar_scan.2 [0; 1] robot_lidar_scan.1
      = (Returned tt, heap1) ∧
    augment_packages robot_lidar_scan.2 [0; 1] heap1 = (Returned tt, heap1).
Proof.
  eexists. split; [vm_compute; reflexivity|].
  apply (augment_idempotent robot_lidar_scan.2 [0; 1] robot_lidar_scan.1).
  vm_compute. reflexivity.
Defined.


Lemma augment_without_cached_witness :
  augment_packages initial_globals [0; 1]
    [fresh_descriptor "/ws/robot"; fresh_descriptor "/ws/lidar"]
  = (Returned tt, [fresh_descriptor "/ws/robot"; fresh_descriptor "/ws/lidar"]).
Proof.
  apply augment_without_cached. intros r d _ _.
  unfold cached_package. simpl. by rewrite lookup_empty.
Defined.

Lemma augment_order_independent_witness :
  NoDup (batch_paths robot_lidar_scan.1 [0; 1]) ∧
  augment_packages robot_lidar_scan.2 [1; 0] robot_lidar_scan.1
  = augment_packages robot_lidar_scan.2 [0; 1] robot_lidar_scan.1.
Proof.
  assert (NoDup (batch_paths robot_lidar_scan.1 [0; 1])) as Hnd.
  { vm_compute. apply NoDup_cons. split.
    - intros H. apply list_elem_of_singleton in H. discriminate H.
    - apply NoDup_singleton. }
  split; [exact Hnd|].
  apply augment_order_independent; [apply perm_swap|exact Hnd|].
  repeat constructor; vm_compute; repeat constructor; discriminate.
Defined.

Lemma identify_cache_transparent_witness :
  (identify demo_world
     (fresh_descriptor "/ws/demo",
      (get_package_with_build_type demo_world "/ws/demo" initial_globals).2)).2.1
  = (identify demo_world (fresh_descriptor "/ws/demo", initial_globals)).2.1.
Proof.
  apply (identify_cache_transparent demo_world (fresh_descriptor "/ws/demo")
           initial_globals
           (get_package_with_build_type demo_world "/ws/demo" initial_globals).2).
  - apply cache_consistent_initial.
  - apply cache_consistent_lookup, cache_consistent_initial.
Defined.
